(** * pin_watch: tool inference from pin events and tool-changer synchronisation

    A shallow embedding of [Scripts/pin_watch.py] (class [PinWatch]).

    Conventions of the embedding:
    - Python integers are [Z]; the pin store [self.state] is a [gmap string Z];
      [self.t_indices] is a [gset Z].
    - Reactor times (Python floats, seconds) are idealised as rationals [Q];
      [0.1] is [1 # 10].
    - A method that mutates [self] and the reactor is a function on [world];
      a method that may run G-code also returns the list of lines passed to
      [gcode.run_script_from_command], in order.
    - Diagnostic output ([_info], [logging]) never feeds back into the state and
      is left out, together with the fields only it reads ([self.name]).
    - The [try/except] wrappers of the callbacks guard calls into the host; the
      bodies below are total, so no exceptional path is left to model. *)

From Stdlib Require Import ZArith QArith Lia Ascii.
From stdpp Require Import base option list gmap sets strings pretty.

Open Scope Z_scope.

(** ** The object state *)

Definition handle := nat.

Record PinWatch := mkPinWatch {
  toolchanger_name : string;
  sync_toolchanger : bool;
  verbose : bool;
  assign_delay : Q;
  state : gmap string Z;
  pin_by_label : gmap string string;
  t_indices : gset Z;
  current_tool : Z;
  _compute_timer : option handle;
  _pending_reason : string;
  _pending_tc_ct : option Z;
  _tc_timer : option handle
}.

Definition set_state (v : gmap string Z) (p : PinWatch) : PinWatch :=
  mkPinWatch (toolchanger_name p) (sync_toolchanger p) (verbose p) (assign_delay p)
    v (pin_by_label p) (t_indices p) (current_tool p) (_compute_timer p)
    (_pending_reason p) (_pending_tc_ct p) (_tc_timer p).

Definition set_current_tool (v : Z) (p : PinWatch) : PinWatch :=
  mkPinWatch (toolchanger_name p) (sync_toolchanger p) (verbose p) (assign_delay p)
    (state p) (pin_by_label p) (t_indices p) v (_compute_timer p)
    (_pending_reason p) (_pending_tc_ct p) (_tc_timer p).

Definition set_compute_timer (v : option handle) (p : PinWatch) : PinWatch :=
  mkPinWatch (toolchanger_name p) (sync_toolchanger p) (verbose p) (assign_delay p)
    (state p) (pin_by_label p) (t_indices p) (current_tool p) v
    (_pending_reason p) (_pending_tc_ct p) (_tc_timer p).

Definition set_pending_reason (v : string) (p : PinWatch) : PinWatch :=
  mkPinWatch (toolchanger_name p) (sync_toolchanger p) (verbose p) (assign_delay p)
    (state p) (pin_by_label p) (t_indices p) (current_tool p) (_compute_timer p)
    v (_pending_tc_ct p) (_tc_timer p).

Definition set_pending_tc_ct (v : option Z) (p : PinWatch) : PinWatch :=
  mkPinWatch (toolchanger_name p) (sync_toolchanger p) (verbose p) (assign_delay p)
    (state p) (pin_by_label p) (t_indices p) (current_tool p) (_compute_timer p)
    (_pending_reason p) v (_tc_timer p).

Definition set_tc_timer (v : option handle) (p : PinWatch) : PinWatch :=
  mkPinWatch (toolchanger_name p) (sync_toolchanger p) (verbose p) (assign_delay p)
    (state p) (pin_by_label p) (t_indices p) (current_tool p) (_compute_timer p)
    (_pending_reason p) (_pending_tc_ct p) v.

(** ** The compute algorithm *)

(** [self.state.get(label, 0)] *)
Definition state_get (st : gmap string Z) (label : string) : Z :=
  default 0 (st !! label).

(** ["t%d" % i] *)
Definition bay_label (i : Z) : string := "t" +:+ pretty i.

(** [v in (0, 1)] *)
Definition in_0_1 (v : Z) : bool := (v =? 0) || (v =? 1).

(** The locals [bad], [S], [empties], [empty_idx] carried round the loop. *)
Record tally := mkTally {
  acc_bad : Z;
  acc_S : Z;
  acc_empties : Z;
  acc_empty_idx : Z
}.

(** One iteration of [for i in range(N)]. *)
Definition scan_bay (st : gmap string Z) (a : tally) (i : Z) : tally :=
  let occ := state_get st (bay_label i) in
  let bad := if in_0_1 occ then acc_bad a else 1 in
  let S := acc_S a + occ in
  if occ =? 0
  then mkTally bad S (acc_empties a + 1) i
  else mkTally bad S (acc_empties a) (acc_empty_idx a).

(** The diagnostic tuple [(N, ex, S, empties, bad)]; [None] is Python's. *)
Definition dbg : Type := Z * option Z * option Z * option Z * Z.

(** Body of [_compute_current_tool], with [N] and the store as arguments. *)
Definition compute_from (N : Z) (st : gmap string Z) : Z * dbg :=
  if N <? 1 then (-2, (N, None, None, None, 1))
  else
    let ex := state_get st "e" in
    let bad0 := if in_0_1 ex then 0 else 1 in
    let a := foldl (scan_bay st) (mkTally bad0 0 0 (-1)) (seqZ 0 N) in
    let ct :=
      if acc_bad a =? 1 then -2
      else if (ex =? 0) && (acc_S a =? N) then -1
      else if (ex =? 1) && (acc_S a =? N - 1) && (acc_empties a =? 1)
           then acc_empty_idx a
      else -2 in
    (ct, (N, Some ex, Some (acc_S a), Some (acc_empties a), acc_bad a)).

(** [max(self.t_indices) + 1], or 0 for the empty set. *)
Definition _tool_count (p : PinWatch) : Z :=
  match elements (t_indices p) with
  | [] => 0
  | x :: l => foldr Z.max x l + 1
  end.

Definition _compute_current_tool (p : PinWatch) : Z * dbg :=
  compute_from (_tool_count p) (state p).

(** ** The decision table as the specification words it *)

Inductive InferredTool :=
  | Unknown
  | Unmounted
  | Mounted (index : Z).

(** The integer under which a result is cached and exported. *)
Definition tool_code (t : InferredTool) : Z :=
  match t with
  | Unknown => -2
  | Unmounted => -1
  | Mounted i => i
  end.

(** The occupancy value of bay [i] (0 if absent). *)
Definition bay_value (st : gmap string Z) (i : Z) : Z :=
  state_get st (bay_label i).

(** Values read from the bays [0 .. N-1]. *)
Definition bay_values (N : Z) (st : gmap string Z) : list Z :=
  bay_value st <$> seqZ 0 N.

(** Indices of the bays that read 0. *)
Definition empty_bays (N : Z) (st : gmap string Z) : list Z :=
  filter (fun i => bay_value st i = 0) (seqZ 0 N).

(** Some value that is read lies outside {0,1}. *)
Definition invalid_snapshot (N : Z) (st : gmap string Z) : bool :=
  negb (in_0_1 (state_get st "e") && forallb in_0_1 (bay_values N st)).

Definition sum_list_Z (l : list Z) : Z := foldr Z.add 0 l.

Definition decision_table (N : Z) (st : gmap string Z) : InferredTool :=
  if decide (N < 1) then Unknown
  else if invalid_snapshot N st then Unknown
  else
    let ex := state_get st "e" in
    let S := sum_list_Z (bay_values N st) in
    if decide (ex = 0 /\ S = N) then Unmounted
    else match empty_bays N st with
         | [i] => if decide (ex = 1 /\ S = N - 1) then Mounted i else Unknown
         | _ => Unknown
         end.

(** ** The host: reactor timers and status providers *)

(** Modelled from the spec: the reactor is an external collaborator (the host's
    event scheduler), of which only the timer interface the source calls is
    described: [register_timer] arms a single-shot timer and returns its handle,
    [unregister_timer] discards it, [monotonic] reads the clock, and a callback
    that returns [NEVER] is not fired again. Handles are object identities,
    rendered as fresh numbers. The two callbacks this class registers: *)
Inductive callback :=
  | ComputeTimerCb   (* self._compute_timer_cb *)
  | TcTimerCb.       (* self._tc_timer_cb *)

Global Instance callback_eq_dec : EqDecision callback.
Proof. solve_decision. Defined.

(** [waketime = None] is the reactor's [NEVER]. *)
Record timer := mkTimer {
  timer_id : handle;
  timer_callback : callback;
  waketime : option Q
}.

Record Reactor := mkReactor {
  timers : list timer;
  next_handle : handle
}.

Definition register_timer (cb : callback) (when : Q) (r : Reactor) : handle * Reactor :=
  (next_handle r,
   mkReactor (timers r ++ [mkTimer (next_handle r) cb (Some when)]) (S (next_handle r))).

(** Removes the timer; on an unknown handle the host raises, which the caller
    swallows ([except Exception: pass]), leaving the reactor as it was. *)
Definition unregister_timer (h : handle) (r : Reactor) : Reactor :=
  mkReactor (filter (fun t => timer_id t <> h) (timers r)) (next_handle r).

Definition due (now : Q) (t : timer) : bool :=
  match waketime t with
  | Some wk => Qle_bool wk now
  | None => false
  end.

Definition expire (h : handle) (t : timer) : timer :=
  if Nat.eqb (timer_id t) h then mkTimer (timer_id t) (timer_callback t) None else t.

(** The reactor picks timer [h] if it is due at [now]; the timer is marked
    [NEVER] (every callback of this class returns [NEVER]) and its callback is
    handed back for the caller to run. *)
Definition fire_timer (h : handle) (now : Q) (r : Reactor) : option (callback * Reactor) :=
  match List.find (fun t => Nat.eqb (timer_id t) h && due now t) (timers r) with
  | Some t => Some (timer_callback t, mkReactor (expire h <$> timers r) (next_handle r))
  | None => None
  end.

(** Modelled from the spec: the external status providers. What the host
    reports while one callback runs: the clock, the state of the [print_stats]
    object and the status of the tool-changer object ([None] when the object
    or the attribute is missing). *)
Record env := mkEnv {
  monotonic : Q;
  print_stats_state : option string;
  toolchanger_status : option string
}.

Definition _BUSY_STATUSES : list string := ["changing"; "initializing"].

Definition _toolchanger_busy (ev : env) : bool :=
  match toolchanger_status ev with
  | Some st => bool_decide (st ∈ _BUSY_STATUSES)
  | None => false
  end.

Definition _is_printing (ev : env) : bool :=
  String.eqb (default "" (print_stats_state ev)) "printing".

(** The object together with the host state it acts on: the reactor and the
    buttons registry, a list of [(pin, label)] pairs, one per registered
    callback. *)
Record world := mkWorld {
  self : PinWatch;
  reactor : Reactor;
  buttons : list (string * string)
}.

Definition with_self (p : PinWatch) (w : world) : world :=
  mkWorld p (reactor w) (buttons w).

Definition with_reactor (r : Reactor) (w : world) : world :=
  mkWorld (self w) r (buttons w).

(** ** Status export *)

Definition get_status (eventtime : Q) (p : PinWatch) : gmap string Z :=
  {[ "current_tool" := current_tool p ]}.

(** ** Scheduling the compute *)

(** [max(0.0, float(delay))] *)
Definition clamp_delay (delay : Q) : Q :=
  if Qle_bool delay 0 then 0%Q else delay.

Definition _schedule_compute (reason : string) (delay : Q) (ev : env) (w : world) : world :=
  let p := set_pending_reason reason (self w) in
  let '(p, r) :=
    match _compute_timer p with
    | Some h => (set_compute_timer None p, unregister_timer h (reactor w))
    | None => (p, reactor w)
    end in
  let when := (monotonic ev + clamp_delay delay)%Q in
  let '(h, r) := register_timer ComputeTimerCb when r in
  mkWorld (set_compute_timer (Some h) p) r (buttons w).

(** The closure [_cb] made by [_make_callback(label)]. *)
Definition _cb (label : string) (eventtime : Q) (s : Z) (ev : env) (w : world) : world :=
  if decide (state (self w) !! label = Some s) then w
  else
    let w := with_self (set_state (<[label := s]> (state (self w))) (self w)) w in
    _schedule_compute label (assign_delay (self w)) ev w.

(** ** Tool-changer synchronisation *)

(** The lines [_do_toolchanger_sync] passes to [_run_cmd]. *)
Definition _do_toolchanger_sync (ct : Z) : list string :=
  if 0 <=? ct then ["INITIALIZE_TOOLCHANGER T=" +:+ pretty ct]
  else ["UNSELECT_TOOL"].

Definition _sync_toolchanger_or_defer (ct : Z) (ev : env) (w : world) : world * list string :=
  if _toolchanger_busy ev then
    let p := set_pending_tc_ct (Some ct) (self w) in
    match _tc_timer p with
    | None =>
        let when := (monotonic ev + (1 # 10))%Q in
        let '(h, r) := register_timer TcTimerCb when (reactor w) in
        (mkWorld (set_tc_timer (Some h) p) r (buttons w), [])
    | Some _ => (with_self p w, [])
    end
  else (w, _do_toolchanger_sync ct).

Definition _request_toolchanger_sync (ct : Z) (ev : env) (w : world) : world * list string :=
  if _is_printing ev then
    if 0 <=? ct then _sync_toolchanger_or_defer ct ev w
    else (w, [])
  else _sync_toolchanger_or_defer ct ev w.

Definition _tc_timer_cb (ev : env) (w : world) : world * list string :=
  let p := set_tc_timer None (self w) in
  match _pending_tc_ct p with
  | None => (with_self p w, [])
  | Some ct =>
      if _toolchanger_busy ev then
        let when := (monotonic ev + (1 # 10))%Q in
        let '(h, r) := register_timer TcTimerCb when (reactor w) in
        (mkWorld (set_tc_timer (Some h) p) r (buttons w), [])
      else
        (with_self (set_pending_tc_ct None p) w, _do_toolchanger_sync ct)
  end.

Definition _compute_timer_cb (ev : env) (w : world) : world * list string :=
  let p := set_compute_timer None (self w) in
  let '(ct, _) := _compute_current_tool p in
  let p := set_current_tool ct p in
  let w := with_self p w in
  if sync_toolchanger p then _request_toolchanger_sync (current_tool p) ev w
  else (w, []).

(** ** One step of the host

    The host runs one callback to completion at a time: a debounced pin event
    for a registered label, a due timer, or a status poll. [None] means the
    host cannot take that step in that state. *)

Inductive event :=
  | PinEdge (label : string) (value : Z)
  | TimerFire (h : handle)
  | StatusPoll.

Definition step (ev : env) (e : event) (w : world) : option (world * list string) :=
  match e with
  | PinEdge label value =>
      if bool_decide (label ∈ (snd <$> buttons w))
      then Some (_cb label (monotonic ev) value ev w, [])
      else None
  | TimerFire h =>
      match fire_timer h (monotonic ev) (reactor w) with
      | Some (ComputeTimerCb, r) => Some (_compute_timer_cb ev (with_reactor r w))
      | Some (TcTimerCb, r) => Some (_tc_timer_cb ev (with_reactor r w))
      | None => None
      end
  | StatusPoll => Some (w, [])
  end.

Definition trace := list (env * event).

(** Runs a trace; the G-code lines of all steps are concatenated in order. *)
Fixpoint run (tr : trace) (w : world) : option (world * list string) :=
  match tr with
  | [] => Some (w, [])
  | (ev, e) :: tr' =>
      match step ev e w with
      | Some (w1, out1) =>
          match run tr' w1 with
          | Some (w2, out2) => Some (w2, out1 ++ out2)
          | None => None
          end
      | None => None
      end
  end.

(** ** Construction *)

(** Modelled from the spec: the configuration surface. A configuration
    section is its options and their values, in file order. Option values
    arrive stripped of surrounding blanks, so [str(v).strip()] is the value
    itself. *)
Record config := mkConfig {
  options : list (string * string)
}.

Inductive init_error :=
  | ValueError                   (* int(...) or float(...) raised *)
  | ConfigError (msg : string)   (* config.error(...) *)
  | PinError.                    (* the buttons module rejected the pin *)

(** [config.get(option, default)], before the default is applied. *)
Fixpoint config_get (opt : string) (l : list (string * string)) : option string :=
  match l with
  | [] => None
  | (k, v) :: l' => if String.eqb k opt then Some v else config_get opt l'
  end.

(** [config.get_prefix_options(prefix)] *)
Definition get_prefix_options (prefix : string) (cfg : config) : list string :=
  filter (fun o => String.prefix prefix o = true) (fst <$> options cfg).

(** [s[n:]] *)
Fixpoint string_drop (n : nat) (s : string) : string :=
  match n, s with
  | O, _ => s
  | S n', String _ s' => string_drop n' s'
  | S _, EmptyString => EmptyString
  end.

Definition no_pins_message : string :=
  "pin_watch: no pins found. Add pin_<name>: <pin> options.".

Section Construction.

(** Python's [int(str)] and [float(str)], [None] where they raise, and the
    verdict of [buttons.register_debounce_button] on a pin description. *)
Variable py_int : string -> option Z.
Variable py_float : string -> option Q.
Variable pin_ok : string -> bool.

Definition _parse_t_index (label : string) : option Z :=
  if String.prefix "t" label then py_int (string_drop 1 label) else None.

(** [int(config.get(name, 1)) != 0] and the like. *)
Definition config_flag (name : string) (default_value : Z) (cfg : config) : option bool :=
  match config_get name (options cfg) with
  | Some v => (fun z => negb (z =? 0)) <$> py_int v
  | None => Some (negb (default_value =? 0))
  end.

Definition config_float (name : string) (default_value : Q) (cfg : config) : option Q :=
  match config_get name (options cfg) with
  | Some v => py_float v
  | None => Some default_value
  end.

(** One iteration of [for opt in opts]. *)
Definition add_pin (cfg : config) (w : world) (opt : string) : init_error + world :=
  let label := string_drop 4 opt in
  let pin_str := default "" (config_get opt (options cfg)) in
  let p := self w in
  let p := mkPinWatch (toolchanger_name p) (sync_toolchanger p) (verbose p)
             (assign_delay p)
             (if decide (is_Some (state p !! label)) then state p
              else <[label := 0]> (state p))
             (<[label := pin_str]> (pin_by_label p))
             (match _parse_t_index label with
              | Some ti => {[ ti ]} ∪ t_indices p
              | None => t_indices p
              end)
             (current_tool p) (_compute_timer p) (_pending_reason p)
             (_pending_tc_ct p) (_tc_timer p) in
  if pin_ok pin_str
  then inr (mkWorld p (reactor w) (buttons w ++ [(pin_str, label)]))
  else inl PinError.

Fixpoint add_pins (cfg : config) (w : world) (opts : list string) : init_error + world :=
  match opts with
  | [] => inr w
  | opt :: opts' =>
      match add_pin cfg w opt with
      | inr w' => add_pins cfg w' opts'
      | inl e => inl e
      end
  end.

(** [PinWatch.__init__], run by the host at time [monotonic ev]. *)
Definition __init__ (cfg : config) (ev : env) : init_error + world :=
  let toolchanger_name := default "toolchanger" (config_get "toolchanger" (options cfg)) in
  match config_flag "sync_toolchanger" 1 cfg with
  | None => inl ValueError
  | Some sync =>
  match config_flag "verbose" 0 cfg with
  | None => inl ValueError
  | Some verb =>
  match config_float "assign_delay" 0%Q cfg with
  | None => inl ValueError
  | Some delay =>
      let p := mkPinWatch toolchanger_name sync verb delay ∅ ∅ ∅ (-2)
                 None "startup" None None in
      let opts := get_prefix_options "pin_" cfg in
      match opts with
      | [] => inl (ConfigError no_pins_message)
      | _ =>
          match add_pins cfg (mkWorld p (mkReactor [] 0%nat) []) opts with
          | inr w => inr (_schedule_compute "startup" 0%Q ev w)
          | inl e => inl e
          end
      end
  end end end.

End Construction.

(** A decimal reader that agrees with [int] on plain decimal numerals with an
    optional sign, and fails elsewhere; enough to run the constructor on
    labels such as [t0], [t12]. *)
Definition digit_of (c : Ascii.ascii) : option Z :=
  let n := Z.of_N (Ascii.N_of_ascii c) in
  if (48 <=? n) && (n <=? 57) then Some (n - 48) else None.

Fixpoint read_digits (acc : Z) (s : string) : option Z :=
  match s with
  | EmptyString => Some acc
  | String c s' =>
      match digit_of c with
      | Some d => read_digits (10 * acc + d) s'
      | None => None
      end
  end.

Definition decimal_int (s : string) : option Z :=
  match s with
  | EmptyString => None
  | String "-"%char (String c s') => Z.opp <$> read_digits 0 (String c s')
  | String "+"%char (String c s') => read_digits 0 (String c s')
  | String "-"%char EmptyString => None
  | String "+"%char EmptyString => None
  | _ => read_digits 0 s
  end.

(** Worlds the host can reach from a successful construction. *)
Inductive reachable (py_int : string -> option Z) (py_float : string -> option Q)
    (pin_ok : string -> bool) (cfg : config) : world -> Prop :=
  | reach_init ev w :
      __init__ py_int py_float pin_ok cfg ev = inr w ->
      reachable py_int py_float pin_ok cfg w
  | reach_step ev e w w' out :
      reachable py_int py_float pin_ok cfg w ->
      step ev e w = Some (w', out) ->
      reachable py_int py_float pin_ok cfg w'.

(** ** Notions used to state the properties *)

(** A timer that has been armed for [cb] and has not fired or been discarded. *)
Definition armed (cb : callback) (t : timer) : Prop :=
  timer_callback t = cb /\ is_Some (waketime t).

Global Instance armed_dec cb t : Decision (armed cb t).
Proof. unfold armed. apply _. Defined.

Definition outstanding (cb : callback) (r : Reactor) : list timer :=
  filter (armed cb) (timers r).

(** The values the status field may take for [N] tools. *)
Definition valid_tool (N ct : Z) : Prop :=
  ct = -2 \/ ct = -1 \/ 0 <= ct < N.

(** The object and the reactor agree: the handle fields name exactly the
    outstanding timers, a retry timer always has a target to dispatch, and the
    cached tool is in range. *)
Record consistent (w : world) : Prop := mkConsistent {
  handles_fresh :
    Forall (fun t => (timer_id t < next_handle (reactor w))%nat) (timers (reactor w));
  handles_distinct : NoDup (timer_id <$> timers (reactor w));
  compute_timer_held :
    timer_id <$> outstanding ComputeTimerCb (reactor w)
    = option_list (_compute_timer (self w));
  tc_timer_held :
    timer_id <$> outstanding TcTimerCb (reactor w) = option_list (_tc_timer (self w));
  tc_timer_has_target :
    is_Some (_tc_timer (self w)) -> is_Some (_pending_tc_ct (self w));
  current_tool_valid : valid_tool (_tool_count (self w)) (current_tool (self w))
}.

(** The callback a step runs, if the step is a timer firing. *)
Definition fired (ev : env) (e : event) (w : world) : option callback :=
  match e with
  | TimerFire h => fst <$> fire_timer h (monotonic ev) (reactor w)
  | _ => None
  end.

(** Number of inference passes (runs of [_compute_timer_cb]) along a trace. *)
Fixpoint inference_passes (tr : trace) (w : world) : nat :=
  match tr with
  | [] => 0%nat
  | (ev, e) :: tr' =>
      match step ev e w with
      | Some (w1, _) =>
          ((if decide (fired ev e w = Some ComputeTimerCb) then 1 else 0)
           + inference_passes tr' w1)%nat
      | None => 0%nat
      end
  end.

(** The pin store after the edges of a trace. *)
Fixpoint edges_applied (tr : trace) (st : gmap string Z) : gmap string Z :=
  match tr with
  | [] => st
  | (_, PinEdge label v) :: tr' => edges_applied tr' (<[label := v]> st)
  | _ :: tr' => edges_applied tr' st
  end.

(** The time of the last change of level along a trace that starts with the
    store at [st]; [t] if the trace changes no level. *)
Fixpoint last_change_time (tr : trace) (st : gmap string Z) (t : Q) : Q :=
  match tr with
  | [] => t
  | (ev, PinEdge label v) :: tr' =>
      if decide (st !! label = Some v) then last_change_time tr' st t
      else last_change_time tr' (<[label := v]> st) (monotonic ev)
  | _ :: tr' => last_change_time tr' st t
  end.

(** A burst after an edge at time [t] that left the store [st]: every later
    event happens less than [d] after the edge before it. An edge is a change
    of level; a delivery that repeats the stored level is no edge and leaves
    the window where it was. *)
Fixpoint burst (d : Q) (st : gmap string Z) (t : Q) (tr : trace) : Prop :=
  match tr with
  | [] => True
  | (ev, e) :: tr' =>
      (monotonic ev < t + d)%Q /\
      match e with
      | PinEdge label v =>
          if decide (st !! label = Some v) then burst d st t tr'
          else burst d (<[label := v]> st) (monotonic ev) tr'
      | _ => burst d st t tr'
      end
  end.

(** The target a step hands to [_sync_toolchanger_or_defer], when the step is
    an inference pass that gets as far as a dispatch decision. *)
Definition decision (ev : env) (e : event) (w : world) : option Z :=
  match fired ev e w with
  | Some ComputeTimerCb =>
      let ct := fst (_compute_current_tool (self w)) in
      if sync_toolchanger (self w) && (negb (_is_printing ev) || (0 <=? ct))
      then Some ct else None
  | _ => None
  end.

(** The dispatch decisions along a trace, oldest first. *)
Fixpoint decisions (tr : trace) (w : world) : list Z :=
  match tr with
  | [] => []
  | (ev, e) :: tr' =>
      match step ev e w with
      | Some (w1, _) => option_list (decision ev e w) ++ decisions tr' w1
      | None => []
      end
  end.

(** The tool-changer reports busy at every step of the trace. *)
Definition all_busy (tr : trace) : Prop :=
  Forall (fun x => _toolchanger_busy (fst x) = true) tr.

(** The two command texts. *)
Definition is_command (line : string) : Prop :=
  line = "UNSELECT_TOOL" \/
  exists n : Z, 0 <= n /\ line = "INITIALIZE_TOOLCHANGER T=" +:+ pretty n.

(** The recompute armed by the edge at time [t] is the only one outstanding,
    and the store reads [st]; [d] is the configured [assign_delay]. *)
Definition pending_recompute (d : Q) (w : world) (st : gmap string Z) (t : Q) : Prop :=
  consistent w /\ state (self w) = st /\ assign_delay (self w) = d /\
  exists h, outstanding ComputeTimerCb (reactor w)
            = [mkTimer h ComputeTimerCb (Some (t + clamp_delay d)%Q)].

(** The command the specification assigns to an inference result. *)
Definition command_for (t : InferredTool) : string :=
  match t with
  | Mounted n => "INITIALIZE_TOOLCHANGER T=" +:+ pretty n
  | Unmounted | Unknown => "UNSELECT_TOOL"
  end.

(** ** A sample installation

    Three pins ([e], [t0], [t1], so N = 2) and a coalescing window of half a
    second; used to run the model on concrete inputs. *)

Definition sample_config : config :=
  mkConfig [("pin_e", "PA1"); ("pin_t0", "PA2"); ("pin_t1", "PA3");
            ("assign_delay", "0.5")].

Definition empty_config : config := mkConfig [("verbose", "1")].

Definition sample_float (s : string) : option Q :=
  if String.eqb s "0.5" then Some (1 # 2)%Q else None.

Definition any_pin (pin : string) : bool := true.

(** The host at time [t]; the print state and tool-changer status as given. *)
Definition host (t : Q) (printing : option string) (tc : option string) : env :=
  mkEnv t printing tc.

Definition sample_init : init_error + world :=
  __init__ decimal_int sample_float any_pin sample_config (host 0 None (Some "initializing")).

(** The world right after construction. *)
Definition sample_world : world :=
  Eval vm_compute in
    match sample_init with
    | inr w => w
    | inl _ => mkWorld (mkPinWatch "" false false 0%Q ∅ ∅ ∅ 0 None "" None None)
                       (mkReactor [] 0%nat) []
    end.

(** The same pins with the default [assign_delay] of 0. *)
Definition plain_config : config :=
  mkConfig [("pin_e", "PA1"); ("pin_t0", "PA2"); ("pin_t1", "PA3")].

Definition plain_world : world :=
  Eval vm_compute in
    match __init__ decimal_int sample_float any_pin plain_config
            (host 0 None (Some "initializing")) with
    | inr w => w
    | inl _ => mkWorld (mkPinWatch "" false false 0%Q ∅ ∅ ∅ 0 None "" None None)
                       (mkReactor [] 0%nat) []
    end.

(** Two edges 0.2 s apart, inside the half-second window, with a repeated
    delivery and a status poll in between. *)
Definition sample_burst_tail : trace :=
  [(host (11 # 10) None None, PinEdge "e" 1);
   (host (11 # 10) None None, StatusPoll);
   (host (12 # 10) None None, PinEdge "t0" 1)].

Definition sample_burst : trace :=
  (host 1 None None, PinEdge "e" 1) :: sample_burst_tail.

(** The start-up pass finds the tool-changer initialising, and so does the
    first retry. *)
Definition busy_phase : trace :=
  [(host 0 None (Some "initializing"), TimerFire 0%nat);
   (host (1 # 10) None (Some "initializing"), TimerFire 1%nat)].

(** The start-up decision is deferred; a print starts; the tool-changer
    becomes ready and the retry timer fires. *)
Definition print_starts_while_deferred : trace :=
  [(host 0 None (Some "initializing"), TimerFire 0%nat);
   (host (1 # 10) (Some "printing") (Some "ready"), TimerFire 1%nat)].

(** The start-up decision is deferred; tool 1 is picked up and its inference
    pass finds the tool-changer ready; then the retry timer fires. *)
Definition pickup_while_deferred : trace :=
  [(host 0 None (Some "initializing"), TimerFire 0%nat);
   (host (3 # 100) None (Some "initializing"), PinEdge "e" 1);
   (host (3 # 100) None (Some "initializing"), PinEdge "t0" 1);
   (host (5 # 100) None (Some "ready"), TimerFire 3%nat);
   (host (1 # 10) None (Some "ready"), TimerFire 1%nat)].

(** ** Notions used by the further properties *)

(** The labels of the configured pins: [opt[len("pin_"):]] for every option
    of prefix [pin_], in file order. *)
Definition pin_labels (cfg : config) : list string :=
  string_drop 4 <$> get_prefix_options "pin_" cfg.

(** The pins as registered with the buttons module: [(pin, label)] pairs. *)
Definition pin_of (cfg : config) (opt : string) : string :=
  default "" (config_get opt (options cfg)).

(** The tool-changer reports free at every step of the trace. *)
Definition never_busy (tr : trace) : Prop :=
  Forall (fun x => _toolchanger_busy (fst x) = false) tr.

(** The sample pins with synchronisation switched off. *)
Definition watch_only_config : config :=
  mkConfig [("pin_e", "PA1"); ("pin_t0", "PA2"); ("pin_t1", "PA3");
            ("sync_toolchanger", "0")].

Definition watch_only_world : world :=
  Eval vm_compute in
    match __init__ decimal_int sample_float any_pin watch_only_config
            (host 0 None None) with
    | inr w => w
    | inl _ => mkWorld (mkPinWatch "" false false 0%Q ∅ ∅ ∅ 0 None "" None None)
                       (mkReactor [] 0%nat) []
    end.

(** Tool 1 is picked up and put back while the tool-changer stays free. *)
Definition pickup_and_return : trace :=
  [(host 0 None (Some "ready"), TimerFire 0%nat);
   (host 1 None (Some "ready"), PinEdge "e" 1);
   (host 1 None (Some "ready"), PinEdge "t0" 1);
   (host 1 None (Some "ready"), TimerFire 2%nat);
   (host 2 None (Some "ready"), PinEdge "e" 0);
   (host 2 None (Some "ready"), PinEdge "t1" 1);
   (host 2 None (Some "ready"), TimerFire 4%nat)].


(** * Properties *)

(** ** The loop of the compute algorithm in closed form *)

Section Inference.

Variable st : gmap string Z.

Lemma scan_bays_closed (l : list Z) (a : tally) :
  foldl (scan_bay st) a l =
  mkTally (if forallb in_0_1 (bay_value st <$> l) then acc_bad a else 1)
          (acc_S a + sum_list_Z (bay_value st <$> l))
          (acc_empties a + Z.of_nat (length (filter (fun i => bay_value st i = 0) l)))
          (default (acc_empty_idx a) (last (filter (fun i => bay_value st i = 0) l))).
Proof.
  revert a. induction l as [|i l IH]; intros a.
  - destruct a; simpl. f_equal; lia.
  - simpl foldl. rewrite IH. clear IH.
    rewrite fmap_cons, filter_cons. unfold scan_bay. fold (bay_value st i).
    cbn [forallb sum_list_Z foldr]. fold (sum_list_Z (bay_value st <$> l)).
    destruct (Z.eqb_spec (bay_value st i) 0) as [Hz|Hz].
    + rewrite decide_True by done. rewrite Hz.
      cbn [acc_bad acc_S acc_empties acc_empty_idx in_0_1 Z.eqb orb andb length].
      rewrite last_cons. f_equal; [lia | lia |].
      by destruct (last (filter (fun i0 => bay_value st i0 = 0) l)).
    + rewrite decide_False by done.
      cbn [acc_bad acc_S acc_empties acc_empty_idx].
      f_equal; [| lia].
      destruct (in_0_1 (bay_value st i)); simpl; [done|].
      by destruct (forallb in_0_1 (bay_value st <$> l)).
Qed.

End Inference.

Lemma singleton_of_length_1 {A} (l : list A) :
  length l = 1%nat -> exists x, l = [x] /\ last l = Some x.
Proof. destruct l as [|x [|y l]]; simpl; intros; try lia. by exists x. Qed.

Lemma andb_eqb_false (a b c d : Z) :
  ~ (a = b /\ c = d) -> (a =? b) && (c =? d) = false.
Proof.
  intros H. apply andb_false_iff.
  destruct (Z.eqb_spec a b); destruct (Z.eqb_spec c d); tauto.
Qed.

Lemma compute_from_table (N : Z) (st : gmap string Z) :
  fst (compute_from N st) = tool_code (decision_table N st).
Proof.
  unfold compute_from, decision_table.
  destruct (Z.ltb_spec N 1) as [Hlt|Hge].
  { rewrite decide_True by done. done. }
  rewrite decide_False by lia.
  rewrite scan_bays_closed. cbn [fst acc_bad acc_S acc_empties acc_empty_idx].
  unfold invalid_snapshot, bay_values, empty_bays.
  set (vals := bay_value st <$> seqZ 0 N).
  set (emp := filter (fun i => bay_value st i = 0) (seqZ 0 N)).
  destruct (in_0_1 (state_get st "e")) eqn:Hex; simpl.
  2:{ by destruct (forallb in_0_1 vals). }
  destruct (forallb in_0_1 vals) eqn:Hall; simpl; [|done].
  rewrite !Z.add_0_l.
  destruct (decide (state_get st "e" = 0 /\ sum_list_Z vals = N)) as [[He HS]|Hno].
  { rewrite He, HS. simpl. by rewrite Z.eqb_refl. }
  rewrite (andb_eqb_false _ _ _ _ Hno).
  destruct (Z.eqb_spec (Z.of_nat (length emp)) 1) as [Hone|Hmany].
  - destruct (singleton_of_length_1 emp) as (i & Hi & Hlast); [lia|].
    rewrite Hi in *. rewrite Hlast. simpl.
    destruct (decide (state_get st "e" = 1 /\ sum_list_Z vals = N - 1)) as [[He HS]|Hno'].
    + rewrite He, HS. by rewrite !Z.eqb_refl.
    + by rewrite (andb_eqb_false _ _ _ _ Hno').
  - rewrite andb_false_r.
    destruct emp as [|i [|j emp']]; simpl in *; first [done | lia].
Qed.

Lemma decision_table_valid (N : Z) (st : gmap string Z) :
  valid_tool N (tool_code (decision_table N st)).
Proof.
  unfold decision_table, valid_tool.
  destruct (decide (N < 1)); [simpl; tauto|].
  destruct (invalid_snapshot N st); [simpl; tauto|].
  destruct (decide _); [simpl; tauto|].
  destruct (empty_bays N st) as [|i [|j l]] eqn:Hemp; simpl; try tauto.
  destruct (decide _); simpl; [|tauto].
  right; right.
  assert (Hin : i ∈ empty_bays N st) by (rewrite Hemp; apply list_elem_of_here).
  unfold empty_bays in Hin.
  pose proof (proj1 (list_elem_of_filter _ _ _) Hin) as [_ Hseq].
  apply elem_of_seqZ in Hseq. lia.
Qed.

Lemma compute_from_valid (N : Z) (st : gmap string Z) :
  valid_tool N (fst (compute_from N st)).
Proof. rewrite compute_from_table. apply decision_table_valid. Qed.

(** Only the labels [e] and [t0 .. t(N-1)] are read. *)
Lemma compute_from_ext (N : Z) (st1 st2 : gmap string Z) :
  state_get st1 "e" = state_get st2 "e" ->
  (forall i, 0 <= i < N -> state_get st1 (bay_label i) = state_get st2 (bay_label i)) ->
  compute_from N st1 = compute_from N st2.
Proof.
  intros He Hb. unfold compute_from. rewrite He.
  assert (Hfold : forall l a, (forall i, i ∈ l -> 0 <= i < N) ->
            foldl (scan_bay st1) a l = foldl (scan_bay st2) a l).
  { induction l as [|i l IH]; intros a Hl; [done|]. simpl.
    rewrite IH by (intros j Hj; apply Hl; by right).
    f_equal. unfold scan_bay. rewrite Hb; [done|]. apply Hl. by left. }
  rewrite Hfold; [done|]. intros i Hi. apply elem_of_seqZ in Hi. lia.
Qed.

(** ** Reactor bookkeeping *)

Lemma outstanding_register (cb cb' : callback) (when : Q) (r : Reactor) :
  outstanding cb (snd (register_timer cb' when r)) =
  outstanding cb r ++
    (if decide (cb' = cb) then [mkTimer (next_handle r) cb' (Some when)] else []).
Proof.
  unfold outstanding, register_timer. simpl. rewrite filter_app. f_equal.
  rewrite filter_cons, filter_nil. unfold armed at 1. simpl.
  destruct (decide (cb' = cb)) as [->|Hne].
  - rewrite decide_True; [done|]. split; [done|]. by eexists.
  - rewrite decide_False; [done|]. by intros [? _].
Qed.

Lemma outstanding_unregister (cb : callback) (h : handle) (r : Reactor) :
  outstanding cb (unregister_timer h r) =
  filter (fun t => timer_id t <> h) (outstanding cb r).
Proof.
  unfold outstanding, unregister_timer. simpl.
  rewrite !list_filter_filter. apply list_filter_iff. tauto.
Qed.

Lemma outstanding_expire (cb : callback) (h : handle) (l : list timer) (n : handle) :
  outstanding cb (mkReactor (expire h <$> l) n) =
  filter (fun t => timer_id t <> h) (outstanding cb (mkReactor l n)).
Proof.
  unfold outstanding. simpl. induction l as [|t l IH]; [done|].
  rewrite fmap_cons, !filter_cons, IH. unfold expire.
  destruct (Nat.eqb_spec (timer_id t) h) as [Heq|Hne].
  - rewrite decide_False.
    2:{ unfold armed. simpl. intros [_ [? ?]]. done. }
    destruct (decide (armed cb t)); [|done].
    rewrite filter_cons, decide_False; [done|]. tauto.
  - destruct (decide (armed cb t)); [|done].
    by rewrite filter_cons, decide_True.
Qed.

Lemma filter_other_handles_nil (h : handle) (l : list timer) :
  timer_id <$> l = [h] -> filter (fun t => timer_id t <> h) l = [].
Proof.
  destruct l as [|t [|t' l]]; simpl; intros H; try done.
  injection H as H. rewrite filter_cons, decide_False; [done|]. tauto.
Qed.

Lemma filter_other_handles_id (h : handle) (l : list timer) :
  h ∉ timer_id <$> l -> filter (fun t => timer_id t <> h) l = l.
Proof.
  induction l as [|t l IH]; [done|]. rewrite fmap_cons, not_elem_of_cons.
  intros [Hne Hl]. rewrite filter_cons, decide_True by done. by rewrite IH.
Qed.

Lemma timer_by_handle (l : list timer) (t1 t2 : timer) :
  NoDup (timer_id <$> l) -> t1 ∈ l -> t2 ∈ l -> timer_id t1 = timer_id t2 -> t1 = t2.
Proof.
  induction l as [|t l IH]; [by intros _ ?%elem_of_nil|].
  rewrite fmap_cons, NoDup_cons. intros [Hni Hnd] H1 H2 Heq.
  apply elem_of_cons in H1 as [->|H1]; apply elem_of_cons in H2 as [->|H2]; try done.
  - exfalso. apply Hni. rewrite Heq. by apply list_elem_of_fmap_2.
  - exfalso. apply Hni. rewrite <- Heq. by apply list_elem_of_fmap_2.
  - by apply IH.
Qed.

Lemma outstanding_elem (cb : callback) (r : Reactor) (t : timer) :
  t ∈ outstanding cb r <-> t ∈ timers r /\ timer_callback t = cb /\ is_Some (waketime t).
Proof. unfold outstanding. rewrite list_elem_of_filter. unfold armed. tauto. Qed.

(** Timers armed for different callbacks never share a handle. *)
Lemma outstanding_disjoint (cb cb' : callback) (r : Reactor) (h : handle) :
  NoDup (timer_id <$> timers r) -> cb <> cb' ->
  h ∈ timer_id <$> outstanding cb r -> h ∉ timer_id <$> outstanding cb' r.
Proof.
  intros Hnd Hne (t & -> & Ht)%list_elem_of_fmap (t' & Heq & Ht')%list_elem_of_fmap.
  apply outstanding_elem in Ht as (Hin & Hcb & _).
  apply outstanding_elem in Ht' as (Hin' & Hcb' & _).
  assert (t = t') by (eapply timer_by_handle; eauto). congruence.
Qed.

Lemma fire_timer_inv (h : handle) (now : Q) (r r' : Reactor) (cb : callback) :
  fire_timer h now r = Some (cb, r') ->
  r' = mkReactor (expire h <$> timers r) (next_handle r) /\
  exists t wk, t ∈ timers r /\ timer_id t = h /\ timer_callback t = cb /\
               waketime t = Some wk /\ (wk <= now)%Q.
Proof.
  unfold fire_timer. destruct (List.find _ _) as [t|] eqn:Hf; [|done].
  intros [= <- <-]. split; [done|].
  apply List.find_some in Hf as [Hin Hd]. apply andb_prop in Hd as [Hid Hdue].
  apply Nat.eqb_eq in Hid. unfold due in Hdue.
  destruct (waketime t) as [wk|] eqn:Hwk; [|done].
  exists t, wk. rewrite list_elem_of_In. by rewrite <- Qle_bool_iff.
Qed.

Lemma fire_timer_armed (h : handle) (now : Q) (r r' : Reactor) (cb : callback) :
  fire_timer h now r = Some (cb, r') -> h ∈ timer_id <$> outstanding cb r.
Proof.
  intros [_ (t & wk & Hin & <- & Hcb & Hwk & _)]%fire_timer_inv.
  apply list_elem_of_fmap_2, outstanding_elem. rewrite Hwk. eauto.
Qed.

(** A due timer can be fired, and it runs the callback it was armed for. *)
Lemma fire_timer_due (h : handle) (now wk : Q) (r : Reactor) (cb : callback) :
  NoDup (timer_id <$> timers r) ->
  mkTimer h cb (Some wk) ∈ timers r -> (wk <= now)%Q ->
  fire_timer h now r = Some (cb, mkReactor (expire h <$> timers r) (next_handle r)).
Proof.
  intros Hnd Hin Hle. unfold fire_timer.
  destruct (List.find _ _) as [t|] eqn:Hf.
  - apply List.find_some in Hf as [Hin' Hd]. apply andb_prop in Hd as [Hid _].
    apply Nat.eqb_eq in Hid. apply list_elem_of_In in Hin'.
    assert (t = mkTimer h cb (Some wk)) as -> by (eapply timer_by_handle; eauto).
    done.
  - apply list_elem_of_In in Hin.
    pose proof (List.find_none _ _ Hf _ Hin) as Hno. simpl in Hno.
    rewrite Nat.eqb_refl in Hno. unfold due in Hno. simpl in Hno.
    apply Qle_bool_iff in Hle. congruence.
Qed.

(** A timer that is not yet due cannot be fired. *)
Lemma fire_timer_early (h : handle) (now : Q) (r : Reactor) (cb : callback) :
  Forall (fun t => forall wk, waketime t = Some wk -> (now < wk)%Q) (outstanding cb r) ->
  forall r', fire_timer h now r <> Some (cb, r').
Proof.
  intros Hall r' [_ (t & wk & Hin & _ & Hcb & Hwk & Hle)]%fire_timer_inv.
  rewrite Forall_forall in Hall.
  assert (Hlt : (now < wk)%Q).
  { apply (Hall t); [|done]. apply outstanding_elem. rewrite Hwk. eauto. }
  exact (Qlt_not_le _ _ Hlt Hle).
Qed.

Lemma register_timer_fresh (cb : callback) (when : Q) (r : Reactor) :
  Forall (fun t => (timer_id t < next_handle r)%nat) (timers r) ->
  Forall (fun t => (timer_id t < S (next_handle r))%nat)
         (timers r ++ [mkTimer (next_handle r) cb (Some when)]).
Proof.
  intros H. apply Forall_app. split.
  - eapply Forall_impl; [exact H|]. simpl. lia.
  - apply Forall_singleton. simpl. lia.
Qed.

Lemma register_timer_distinct (cb : callback) (when : Q) (r : Reactor) :
  Forall (fun t => (timer_id t < next_handle r)%nat) (timers r) ->
  NoDup (timer_id <$> timers r) ->
  NoDup (timer_id <$> (timers r ++ [mkTimer (next_handle r) cb (Some when)])).
Proof.
  intros Hf Hnd. rewrite fmap_app. apply NoDup_app. split; [done|]. split.
  - intros x (t & -> & Ht)%list_elem_of_fmap Hx. simpl in Hx.
    apply list_elem_of_singleton in Hx.
    rewrite Forall_forall in Hf. specialize (Hf t Ht). simpl in Hf. lia.
  - apply NoDup_singleton.
Qed.

Lemma unregister_timer_fresh (h : handle) (r : Reactor) :
  Forall (fun t => (timer_id t < next_handle r)%nat) (timers r) ->
  Forall (fun t => (timer_id t < next_handle r)%nat) (timers (unregister_timer h r)).
Proof.
  intros H. simpl. rewrite Forall_forall in *.
  intros t Ht. apply H. by pose proof (proj1 (list_elem_of_filter _ _ _) Ht) as [_ ?].
Qed.

Lemma unregister_timer_distinct (h : handle) (r : Reactor) :
  NoDup (timer_id <$> timers r) -> NoDup (timer_id <$> timers (unregister_timer h r)).
Proof.
  intros H. eapply sublist_NoDup; [exact H|]. simpl.
  apply fmap_sublist, sublist_filter.
Qed.

Lemma expire_handles (h : handle) (l : list timer) :
  timer_id <$> (expire h <$> l) = timer_id <$> l.
Proof.
  rewrite <- list_fmap_compose. apply list_fmap_ext. intros _ t _. simpl.
  unfold expire. by destruct (Nat.eqb _ _).
Qed.

Lemma expire_fresh (h n : handle) (l : list timer) :
  Forall (fun t => (timer_id t < n)%nat) l ->
  Forall (fun t => (timer_id t < n)%nat) (expire h <$> l).
Proof.
  intros H. apply Forall_fmap. eapply Forall_impl; [exact H|].
  intros t Ht. simpl. unfold expire. by destruct (Nat.eqb _ _).
Qed.

Lemma handles_nil (l : list timer) : timer_id <$> l = [] -> l = [].
Proof. apply fmap_nil_inv. Qed.

(** ** [_schedule_compute]: the old timer goes, exactly one new timer stays *)

Lemma schedule_compute_frame (reason : string) (delay : Q) (ev : env) (w : world) :
  let w' := _schedule_compute reason delay ev w in
  state (self w') = state (self w) /\
  current_tool (self w') = current_tool (self w) /\
  t_indices (self w') = t_indices (self w) /\
  _pending_tc_ct (self w') = _pending_tc_ct (self w) /\
  _tc_timer (self w') = _tc_timer (self w) /\
  assign_delay (self w') = assign_delay (self w) /\
  sync_toolchanger (self w') = sync_toolchanger (self w) /\
  buttons w' = buttons w.
Proof.
  unfold _schedule_compute. simpl.
  destruct (_compute_timer (self w)); simpl; repeat split.
Qed.

Lemma schedule_compute_outstanding (reason : string) (delay : Q) (ev : env) (w : world) :
  timer_id <$> outstanding ComputeTimerCb (reactor w)
    = option_list (_compute_timer (self w)) ->
  let w' := _schedule_compute reason delay ev w in
  _compute_timer (self w') = Some (next_handle (reactor w)) /\
  outstanding ComputeTimerCb (reactor w') =
    [mkTimer (next_handle (reactor w)) ComputeTimerCb
             (Some (monotonic ev + clamp_delay delay)%Q)].
Proof.
  intros Hheld. unfold _schedule_compute. simpl.
  destruct (_compute_timer (self w)) as [h|]; simpl in *.
  - split; [done|].
    change (mkReactor _ _) with
      (snd (register_timer ComputeTimerCb (monotonic ev + clamp_delay delay)%Q
              (unregister_timer h (reactor w)))).
    rewrite outstanding_register, outstanding_unregister.
    rewrite (filter_other_handles_nil _ _ Hheld). by rewrite decide_True.
  - split; [done|].
    change (mkReactor _ _) with
      (snd (register_timer ComputeTimerCb (monotonic ev + clamp_delay delay)%Q (reactor w))).
    rewrite outstanding_register, (handles_nil _ Hheld). by rewrite decide_True.
Qed.

Lemma schedule_compute_other (reason : string) (delay : Q) (ev : env) (w : world) :
  NoDup (timer_id <$> timers (reactor w)) ->
  timer_id <$> outstanding ComputeTimerCb (reactor w)
    = option_list (_compute_timer (self w)) ->
  outstanding TcTimerCb (reactor (_schedule_compute reason delay ev w))
  = outstanding TcTimerCb (reactor w).
Proof.
  intros Hnd Hheld. unfold _schedule_compute. simpl.
  destruct (_compute_timer (self w)) as [h|]; simpl in *.
  - change (mkReactor _ _) with
      (snd (register_timer ComputeTimerCb (monotonic ev + clamp_delay delay)%Q
              (unregister_timer h (reactor w)))).
    rewrite outstanding_register, outstanding_unregister.
    rewrite decide_False by done. rewrite app_nil_r.
    apply filter_other_handles_id.
    apply (outstanding_disjoint ComputeTimerCb); [done..|].
    rewrite Hheld. apply list_elem_of_here.
  - change (mkReactor _ _) with
      (snd (register_timer ComputeTimerCb (monotonic ev + clamp_delay delay)%Q (reactor w))).
    rewrite outstanding_register. rewrite decide_False by done. by rewrite app_nil_r.
Qed.

Lemma schedule_compute_handles (reason : string) (delay : Q) (ev : env) (w : world) :
  Forall (fun t => (timer_id t < next_handle (reactor w))%nat) (timers (reactor w)) ->
  NoDup (timer_id <$> timers (reactor w)) ->
  let r' := reactor (_schedule_compute reason delay ev w) in
  Forall (fun t => (timer_id t < next_handle r')%nat) (timers r') /\
  NoDup (timer_id <$> timers r').
Proof.
  intros Hf Hnd. unfold _schedule_compute. simpl.
  destruct (_compute_timer (self w)) as [h|]; simpl; split.
  - exact (register_timer_fresh _ _ (unregister_timer h (reactor w))
             (unregister_timer_fresh h _ Hf)).
  - exact (register_timer_distinct _ _ (unregister_timer h (reactor w))
             (unregister_timer_fresh h _ Hf) (unregister_timer_distinct h _ Hnd)).
  - by apply register_timer_fresh.
  - by apply register_timer_distinct.
Qed.

Lemma schedule_compute_consistent (reason : string) (delay : Q) (ev : env) (w : world) :
  consistent w -> consistent (_schedule_compute reason delay ev w).
Proof.
  intros [Hf Hnd Hc Ht Hp Hv].
  pose proof (schedule_compute_frame reason delay ev w) as (_ & Hct & Hti & Hpe & Htc & _).
  pose proof (schedule_compute_outstanding reason delay ev w Hc) as [Hh Ho].
  pose proof (schedule_compute_other reason delay ev w Hnd Hc) as Ho'.
  pose proof (schedule_compute_handles reason delay ev w Hf Hnd) as [Hf' Hnd'].
  simpl in *. split; try done.
  - by rewrite Ho, Hh.
  - by rewrite Ho', Htc.
  - by rewrite Htc, Hpe.
  - unfold _tool_count. by rewrite Hti, Hct.
Qed.

(** ** The pin callback *)

Lemma cb_duplicate (label : string) (t : Q) (s : Z) (ev : env) (w : world) :
  state (self w) !! label = Some s -> _cb label t s ev w = w.
Proof. intros H. unfold _cb. by rewrite decide_True. Qed.

Lemma cb_change (label : string) (t : Q) (s : Z) (ev : env) (w : world) :
  state (self w) !! label <> Some s ->
  _cb label t s ev w =
  _schedule_compute label (assign_delay (self w)) ev
    (with_self (set_state (<[label := s]> (state (self w))) (self w)) w).
Proof. intros H. unfold _cb. by rewrite decide_False. Qed.

Lemma cb_stores (label : string) (t : Q) (s : Z) (ev : env) (w : world) :
  state (self (_cb label t s ev w)) !! label = Some s.
Proof.
  destruct (decide (state (self w) !! label = Some s)) as [Heq|Hne].
  - by rewrite cb_duplicate.
  - rewrite cb_change by done.
    pose proof (schedule_compute_frame label (assign_delay (self w)) ev
      (with_self (set_state (<[label:=s]> (state (self w))) (self w)) w)) as [Hst _].
    cbv zeta in Hst. rewrite Hst. simpl. apply lookup_insert_eq.
Qed.

Lemma set_state_consistent (st : gmap string Z) (w : world) :
  consistent w -> consistent (with_self (set_state st (self w)) w).
Proof. intros [? ? ? ? ? ?]. by split. Qed.

Lemma cb_consistent (label : string) (t : Q) (s : Z) (ev : env) (w : world) :
  consistent w -> consistent (_cb label t s ev w).
Proof.
  intros Hw. unfold _cb. destruct (decide _); [done|].
  by apply schedule_compute_consistent, set_state_consistent.
Qed.

(** ** The dispatcher *)

Lemma do_sync_one_command (ct : Z) :
  exists line, _do_toolchanger_sync ct = [line] /\ is_command line.
Proof.
  unfold _do_toolchanger_sync, is_command.
  destruct (Z.leb_spec 0 ct); eexists; (split; [done|]); eauto.
Qed.

Lemma defer_not_busy (ct : Z) (ev : env) (w : world) :
  _toolchanger_busy ev = false ->
  _sync_toolchanger_or_defer ct ev w = (w, _do_toolchanger_sync ct).
Proof. intros H. unfold _sync_toolchanger_or_defer. by rewrite H. Qed.

(** Deferral: nothing is sent, the target is stored, and a retry timer is
    armed 0.1 s ahead unless one is already held. *)
Lemma defer_busy (ct : Z) (ev : env) (w : world) :
  _toolchanger_busy ev = true ->
  let w' := fst (_sync_toolchanger_or_defer ct ev w) in
  snd (_sync_toolchanger_or_defer ct ev w) = [] /\
  _pending_tc_ct (self w') = Some ct /\
  match _tc_timer (self w) with
  | Some h => _tc_timer (self w') = Some h /\ reactor w' = reactor w
  | None =>
      _tc_timer (self w') = Some (next_handle (reactor w)) /\
      reactor w' = snd (register_timer TcTimerCb (monotonic ev + (1 # 10))%Q (reactor w))
  end /\
  state (self w') = state (self w) /\
  current_tool (self w') = current_tool (self w) /\
  t_indices (self w') = t_indices (self w) /\
  _compute_timer (self w') = _compute_timer (self w) /\
  assign_delay (self w') = assign_delay (self w) /\
  sync_toolchanger (self w') = sync_toolchanger (self w) /\
  buttons w' = buttons w.
Proof.
  intros Hb. unfold _sync_toolchanger_or_defer. rewrite Hb. simpl.
  destruct (_tc_timer (self w)) eqn:Htc; simpl; rewrite ?Htc; repeat split.
Qed.

Lemma defer_consistent (ct : Z) (ev : env) (w : world) :
  consistent w -> consistent (fst (_sync_toolchanger_or_defer ct ev w)).
Proof.
  intros Hw. destruct (_toolchanger_busy ev) eqn:Hb.
  2:{ by rewrite defer_not_busy. }
  pose proof (defer_busy ct ev w Hb) as H. cbv zeta in H.
  destruct H as (_ & Hp & Htm & _ & Hct & Hti & Hcm & _).
  destruct Hw as [Hf Hnd Hc Ht Htg Hv].
  assert (Hv' : valid_tool (_tool_count (self (_sync_toolchanger_or_defer ct ev w).1))
                  (current_tool (self (_sync_toolchanger_or_defer ct ev w).1))).
  { unfold _tool_count. by rewrite Hti, Hct. }
  destruct (_tc_timer (self w)) as [h|] eqn:Htc; destruct Htm as [Htc' Hr].
  - split; rewrite ?Hr, ?Htc', ?Hcm, ?Hp; done.
  - split; rewrite ?Hr, ?Htc', ?Hcm, ?Hp; [| | | |done|done].
    + by apply register_timer_fresh.
    + by apply register_timer_distinct.
    + rewrite outstanding_register, decide_False by done. by rewrite app_nil_r.
    + rewrite outstanding_register, decide_True by done.
      by rewrite (handles_nil _ Ht).
Qed.

Lemma request_consistent (ct : Z) (ev : env) (w : world) :
  consistent w -> consistent (fst (_request_toolchanger_sync ct ev w)).
Proof.
  intros Hw. unfold _request_toolchanger_sync.
  destruct (_is_printing ev); [destruct (0 <=? ct)|]; try done;
    by apply defer_consistent.
Qed.

(** ** Timer callbacks *)

Lemma compute_timer_cb_unfold (ev : env) (w : world) :
  _compute_timer_cb ev w =
  let ct := fst (_compute_current_tool (self w)) in
  let w1 := with_self (set_current_tool ct (set_compute_timer None (self w))) w in
  if sync_toolchanger (self w) then _request_toolchanger_sync ct ev w1 else (w1, []).
Proof.
  unfold _compute_timer_cb.
  change (_compute_current_tool (set_compute_timer None (self w)))
    with (_compute_current_tool (self w)).
  by destruct (_compute_current_tool (self w)).
Qed.

(** The world in the middle of an inference pass: timer gone, tool cached. *)
Lemma compute_pass_consistent (h : handle) (now : Q) (r' : Reactor) (w : world) :
  consistent w ->
  fire_timer h now (reactor w) = Some (ComputeTimerCb, r') ->
  _compute_timer (self w) = Some h /\
  outstanding ComputeTimerCb r' = [] /\
  consistent (with_self (set_current_tool (fst (_compute_current_tool (self w)))
                           (set_compute_timer None (self w)))
                (with_reactor r' w)).
Proof.
  intros [Hf Hnd Hc Ht Htg Hv] Hfire.
  pose proof (fire_timer_armed _ _ _ _ _ Hfire) as Harm.
  apply fire_timer_inv in Hfire as [-> _].
  assert (Hh : _compute_timer (self w) = Some h).
  { rewrite Hc in Harm. destruct (_compute_timer (self w)); simpl in Harm.
    - apply list_elem_of_singleton in Harm. by subst.
    - by apply elem_of_nil in Harm. }
  assert (Hgone : outstanding ComputeTimerCb
            (mkReactor (expire h <$> timers (reactor w)) (next_handle (reactor w))) = []).
  { rewrite outstanding_expire. apply filter_other_handles_nil.
    rewrite Hh in Hc. exact Hc. }
  split; [done|]. split; [done|]. split; simpl.
  - by apply expire_fresh.
  - by rewrite expire_handles.
  - by rewrite Hgone.
  - rewrite outstanding_expire. rewrite <- Ht. f_equal.
    apply filter_other_handles_id.
    by apply (outstanding_disjoint ComputeTimerCb).
  - done.
  - apply compute_from_valid.
Qed.

Lemma tc_fire_inv (h : handle) (now : Q) (r' : Reactor) (w : world) :
  consistent w ->
  fire_timer h now (reactor w) = Some (TcTimerCb, r') ->
  _tc_timer (self w) = Some h /\
  is_Some (_pending_tc_ct (self w)) /\
  r' = mkReactor (expire h <$> timers (reactor w)) (next_handle (reactor w)) /\
  outstanding TcTimerCb r' = [] /\
  outstanding ComputeTimerCb r' = outstanding ComputeTimerCb (reactor w).
Proof.
  intros [Hf Hnd Hc Ht Htg Hv] Hfire.
  pose proof (fire_timer_armed _ _ _ _ _ Hfire) as Harm.
  apply fire_timer_inv in Hfire as [-> _].
  assert (Hh : _tc_timer (self w) = Some h).
  { rewrite Ht in Harm. destruct (_tc_timer (self w)); simpl in Harm.
    - apply list_elem_of_singleton in Harm. by subst.
    - by apply elem_of_nil in Harm. }
  split; [done|]. split; [apply Htg; by rewrite Hh|]. split; [done|]. split.
  - rewrite outstanding_expire. apply filter_other_handles_nil.
    rewrite Hh in Ht. exact Ht.
  - rewrite outstanding_expire. apply filter_other_handles_id.
    by apply (outstanding_disjoint TcTimerCb).
Qed.

(** A retry fire: while busy the timer is re-armed and nothing is sent; once
    free, the stored target is sent and cleared. *)
Lemma tc_timer_cb_spec (h : handle) (ev : env) (r' : Reactor) (w : world) :
  consistent w ->
  fire_timer h (monotonic ev) (reactor w) = Some (TcTimerCb, r') ->
  exists ct, _pending_tc_ct (self w) = Some ct /\
    consistent (fst (_tc_timer_cb ev (with_reactor r' w))) /\
    state (self (fst (_tc_timer_cb ev (with_reactor r' w)))) = state (self w) /\
    assign_delay (self (fst (_tc_timer_cb ev (with_reactor r' w)))) = assign_delay (self w) /\
    outstanding ComputeTimerCb (reactor (fst (_tc_timer_cb ev (with_reactor r' w))))
      = outstanding ComputeTimerCb (reactor w) /\
    if _toolchanger_busy ev then
      snd (_tc_timer_cb ev (with_reactor r' w)) = [] /\
      _pending_tc_ct (self (fst (_tc_timer_cb ev (with_reactor r' w)))) = Some ct /\
      _tc_timer (self (fst (_tc_timer_cb ev (with_reactor r' w))))
        = Some (next_handle (reactor w)) /\
      outstanding TcTimerCb (reactor (fst (_tc_timer_cb ev (with_reactor r' w)))) =
        [mkTimer (next_handle (reactor w)) TcTimerCb (Some (monotonic ev + (1 # 10))%Q)]
    else
      snd (_tc_timer_cb ev (with_reactor r' w)) = _do_toolchanger_sync ct /\
      _pending_tc_ct (self (fst (_tc_timer_cb ev (with_reactor r' w)))) = None /\
      _tc_timer (self (fst (_tc_timer_cb ev (with_reactor r' w)))) = None /\
      outstanding TcTimerCb (reactor (fst (_tc_timer_cb ev (with_reactor r' w)))) = [].
Proof.
  intros Hw Hfire.
  destruct (tc_fire_inv _ _ _ _ Hw Hfire) as (Hh & [ct Hct] & -> & Hgone & Hkeep).
  destruct Hw as [Hf Hnd Hc Ht Htg Hv].
  exists ct. split; [done|].
  set (r' := mkReactor (expire h <$> timers (reactor w)) (next_handle (reactor w))) in *.
  assert (Hf' : Forall (fun t => (timer_id t < next_handle r')%nat) (timers r'))
    by by apply expire_fresh.
  assert (Hnd' : NoDup (timer_id <$> timers r')) by (simpl; by rewrite expire_handles).
  pose proof (outstanding_register TcTimerCb TcTimerCb
                (monotonic ev + (1 # 10))%Q r') as Ho.
  pose proof (outstanding_register ComputeTimerCb TcTimerCb
                (monotonic ev + (1 # 10))%Q r') as Ho'.
  rewrite decide_True, Hgone in Ho by done.
  rewrite decide_False, app_nil_r, Hkeep in Ho' by done.
  pose proof (register_timer_fresh TcTimerCb (monotonic ev + (1 # 10))%Q r' Hf') as Hf2.
  pose proof (register_timer_distinct TcTimerCb (monotonic ev + (1 # 10))%Q r' Hf' Hnd')
    as Hnd2.
  unfold _tc_timer_cb. simpl. rewrite Hct.
  destruct (_toolchanger_busy ev); simpl.
  - simpl in Ho, Ho'. rewrite Ho, Ho'.
    split; [|done]. split; simpl; rewrite ?Ho, ?Ho', ?Hct; done.
  - change (mkReactor _ _) with r'. rewrite Hgone, Hkeep.
    split; [|done]. split; simpl; rewrite ?Hgone, ?Hkeep; done.
Qed.

Theorem step_consistent (ev : env) (e : event) (w w' : world) (out : list string) :
  consistent w -> step ev e w = Some (w', out) -> consistent w'.
Proof.
  intros Hw Hstep. destruct e as [label value|h|]; simpl in Hstep.
  - case_bool_decide; [|done]. injection Hstep as <- _. by apply cb_consistent.
  - destruct (fire_timer h (monotonic ev) (reactor w)) as [[[|] r']|] eqn:Hfire; [| |done].
    + injection Hstep as Hstep. rewrite compute_timer_cb_unfold in Hstep.
      destruct (compute_pass_consistent _ _ _ _ Hw Hfire) as (_ & _ & Hmid).
      cbv zeta in Hstep. simpl in Hstep.
      destruct (sync_toolchanger (self w)).
      * apply (request_consistent (fst (_compute_current_tool (self w))) ev) in Hmid.
        by rewrite Hstep in Hmid.
      * by injection Hstep as <- _.
    + injection Hstep as Hstep.
      destruct (tc_timer_cb_spec _ _ _ _ Hw Hfire) as (ct & _ & Hc & _).
      by rewrite Hstep in Hc.
  - by injection Hstep as <- _.
Qed.

(** ** Construction *)

Section ConstructionFacts.

Variable py_int : string -> option Z.
Variable py_float : string -> option Q.
Variable pin_ok : string -> bool.

Lemma add_pins_pristine (cfg : config) (opts : list string) (w w' : world) :
  add_pins py_int pin_ok cfg w opts = inr w' ->
  reactor w' = reactor w /\
  current_tool (self w') = current_tool (self w) /\
  _compute_timer (self w') = _compute_timer (self w) /\
  _tc_timer (self w') = _tc_timer (self w) /\
  _pending_tc_ct (self w') = _pending_tc_ct (self w) /\
  sync_toolchanger (self w') = sync_toolchanger (self w) /\
  assign_delay (self w') = assign_delay (self w).
Proof.
  revert w. induction opts as [|opt opts IH]; intros w; simpl.
  - by intros [= ->].
  - unfold add_pin at 1. destruct (pin_ok _); [|done].
    intros H. apply IH in H. simpl in H. exact H.
Qed.

Lemma init_consistent (cfg : config) (ev : env) (w : world) :
  __init__ py_int py_float pin_ok cfg ev = inr w -> consistent w.
Proof.
  unfold __init__.
  destruct (config_flag _ _ 1 cfg); [|done].
  destruct (config_flag _ _ 0 cfg); [|done].
  destruct (config_float _ _ _ cfg); [|done].
  destruct (get_prefix_options _ cfg) as [|o opts]; [done|].
  destruct (add_pins _ _ _ _ _) as [e|w0] eqn:Hadd; [done|].
  intros [= <-]. apply schedule_compute_consistent.
  apply add_pins_pristine in Hadd as (Hr & Hct & Hcm & Htc & Hp & _).
  simpl in *. split; rewrite ?Hr, ?Hct, ?Hcm, ?Htc; simpl; try done.
  - constructor.
  - unfold valid_tool. tauto.
Qed.

Theorem reachable_consistent (cfg : config) (w : world) :
  reachable py_int py_float pin_ok cfg w -> consistent w.
Proof.
  induction 1 as [ev w Hinit | ev e w w' out _ IH Hstep].
  - by eapply init_consistent.
  - by eapply step_consistent.
Qed.

End ConstructionFacts.

(** ** What a dispatch decision leaves alone *)

Lemma defer_frame (ct : Z) (ev : env) (w : world) :
  let w' := fst (_sync_toolchanger_or_defer ct ev w) in
  state (self w') = state (self w) /\
  current_tool (self w') = current_tool (self w) /\
  t_indices (self w') = t_indices (self w) /\
  _compute_timer (self w') = _compute_timer (self w) /\
  assign_delay (self w') = assign_delay (self w) /\
  outstanding ComputeTimerCb (reactor w') = outstanding ComputeTimerCb (reactor w).
Proof.
  destruct (_toolchanger_busy ev) eqn:Hb.
  2:{ rewrite defer_not_busy by done. by simpl. }
  pose proof (defer_busy ct ev w Hb) as H. cbv zeta in *.
  destruct H as (_ & _ & Htm & -> & -> & -> & -> & -> & _).
  repeat (split; [done|]).
  destruct (_tc_timer (self w)); destruct Htm as [_ ->]; [done|].
  rewrite outstanding_register, decide_False by done. by rewrite app_nil_r.
Qed.

Lemma request_frame (ct : Z) (ev : env) (w : world) :
  let w' := fst (_request_toolchanger_sync ct ev w) in
  state (self w') = state (self w) /\
  current_tool (self w') = current_tool (self w) /\
  t_indices (self w') = t_indices (self w) /\
  _compute_timer (self w') = _compute_timer (self w) /\
  assign_delay (self w') = assign_delay (self w) /\
  outstanding ComputeTimerCb (reactor w') = outstanding ComputeTimerCb (reactor w).
Proof.
  unfold _request_toolchanger_sync.
  destruct (_is_printing ev); [destruct (0 <=? ct)|]; try apply defer_frame.
  by simpl.
Qed.

(** An inference pass caches the freshly computed tool and leaves no compute
    timer behind. *)
Lemma compute_pass_spec (h : handle) (ev : env) (r' : Reactor) (w : world) :
  consistent w ->
  fire_timer h (monotonic ev) (reactor w) = Some (ComputeTimerCb, r') ->
  let w' := fst (_compute_timer_cb ev (with_reactor r' w)) in
  current_tool (self w') = fst (_compute_current_tool (self w)) /\
  state (self w') = state (self w) /\
  t_indices (self w') = t_indices (self w) /\
  outstanding ComputeTimerCb (reactor w') = [].
Proof.
  intros Hw Hfire.
  destruct (compute_pass_consistent _ _ _ _ Hw Hfire) as (_ & Hgone & _).
  rewrite compute_timer_cb_unfold. cbv zeta. simpl.
  destruct (sync_toolchanger (self w)); [|by simpl].
  match goal with |- context [_request_toolchanger_sync ?c ?e ?x] =>
    pose proof (request_frame c e x) as H end.
  cbv zeta in H. destruct H as (-> & -> & -> & _ & _ & ->). by simpl.
Qed.

Lemma clamp_delay_ge (d : Q) : (d <= clamp_delay d)%Q.
Proof.
  unfold clamp_delay. destruct (Qle_bool d 0) eqn:H.
  - by apply Qle_bool_iff.
  - apply Qle_refl.
Qed.

Lemma held_timer (cb : callback) (r : Reactor) (h : handle) :
  timer_id <$> outstanding cb r = [h] ->
  exists when, outstanding cb r = [mkTimer h cb (Some when)].
Proof.
  intros H. destruct (outstanding cb r) as [|t [|t' l]] eqn:Ho; try done.
  assert (Ht : t ∈ outstanding cb r) by (rewrite Ho; apply list_elem_of_here).
  apply outstanding_elem in Ht as (_ & Hcb & [when Hwk]).
  injection H as H. exists when. destruct t; simpl in *. by subst.
Qed.

(** ** Coalescing a burst of edges *)

Section Burst.

Variable d : Q.

Lemma edge_arms_recompute (label : string) (v : Z) (ev : env) (w : world) :
  consistent w -> assign_delay (self w) = d ->
  state (self w) !! label <> Some v ->
  pending_recompute d (_cb label (monotonic ev) v ev w)
    (<[label := v]> (state (self w))) (monotonic ev).
Proof.
  intros Hw Hd Hne. rewrite cb_change by done. rewrite Hd.
  set (w0 := with_self (set_state (<[label:=v]> (state (self w))) (self w)) w).
  assert (Hw0 : consistent w0) by by apply set_state_consistent.
  pose proof (schedule_compute_frame label d ev w0) as H. cbv zeta in H.
  destruct H as (Hst & _ & _ & _ & _ & Hdel & _).
  destruct (schedule_compute_outstanding label d ev w0 (compute_timer_held _ Hw0))
    as [_ Ho].
  split; [by apply schedule_compute_consistent|].
  split; [by rewrite Hst|]. split; [by rewrite Hdel|]. eauto.
Qed.

Lemma burst_step (ev : env) (e : event) (w w' : world) (out : list string)
    (st : gmap string Z) (t : Q) :
  pending_recompute d w st t ->
  (monotonic ev < t + d)%Q ->
  step ev e w = Some (w', out) ->
  fired ev e w <> Some ComputeTimerCb /\
  match e with
  | PinEdge label v =>
      if decide (st !! label = Some v) then pending_recompute d w' st t
      else pending_recompute d w' (<[label := v]> st) (monotonic ev)
  | _ => pending_recompute d w' st t
  end.
Proof.
  intros (Hw & Hst & Hd & h0 & Ho) Hlt Hstep.
  destruct e as [label v|h|]; simpl in Hstep.
  - split; [done|]. case_bool_decide; [|done]. injection Hstep as <- _.
    subst st. destruct (decide _) as [Hdup|Hnew].
    + rewrite cb_duplicate by done. unfold pending_recompute. eauto 10.
    + by apply edge_arms_recompute.
  - destruct (fire_timer h (monotonic ev) (reactor w)) as [[cb r']|] eqn:Hfire; [|done].
    destruct cb.
    + exfalso. eapply fire_timer_early; [|exact Hfire].
      rewrite Ho. apply Forall_singleton. simpl. intros wk [= <-].
      pose proof (clamp_delay_ge d).
      eapply Qlt_le_trans; [exact Hlt|]. by apply Qplus_le_r.
    + split; [simpl; by rewrite Hfire|]. injection Hstep as Hstep.
      destruct (tc_timer_cb_spec _ _ _ _ Hw Hfire) as (ct & _ & Hc & Hs & Hdel & Hk & _).
      rewrite Hstep in *. simpl in *.
      split; [done|]. split; [congruence|]. split; [congruence|].
      exists h0. by rewrite Hk.
  - injection Hstep as <- _. split; [done|]. unfold pending_recompute. eauto 10.
Qed.

Lemma burst_coalesced (tr : trace) (w w' : world) (out : list string)
    (st : gmap string Z) (t : Q) :
  pending_recompute d w st t ->
  burst d st t tr ->
  run tr w = Some (w', out) ->
  inference_passes tr w = 0%nat /\
  pending_recompute d w' (edges_applied tr st) (last_change_time tr st t).
Proof.
  revert w st t out. induction tr as [|[ev e] tr IH]; intros w st t out Hp Hb Hrun.
  - simpl in *. injection Hrun as <- _. done.
  - simpl in Hb, Hrun |- *. destruct Hb as [Hlt Hb].
    destruct (step ev e w) as [[w1 out1]|] eqn:Hstep; [|done].
    destruct (run tr w1) as [[w2 out2]|] eqn:Hrun'; [|done].
    injection Hrun as <- _.
    destruct (burst_step _ _ _ _ _ _ _ Hp Hlt Hstep) as [Hnf Hp1].
    rewrite decide_False by done. simpl.
    destruct e as [label v| |]; [|by eapply IH..].
    destruct (decide (st !! label = Some v)) as [Hdup|Hnew]; [|by eapply IH].
    rewrite (insert_id _ _ _ Hdup). by eapply IH.
Qed.

(** When the one outstanding recompute comes due it can be fired, and the
    pass reflects the store as the last edge left it. *)
Lemma recompute_fires (ev : env) (w : world) (h : handle) (wk : Q) :
  consistent w ->
  outstanding ComputeTimerCb (reactor w) = [mkTimer h ComputeTimerCb (Some wk)] ->
  (wk <= monotonic ev)%Q ->
  exists w' out,
    step ev (TimerFire h) w = Some (w', out) /\
    fired ev (TimerFire h) w = Some ComputeTimerCb /\
    current_tool (self w') = fst (_compute_current_tool (self w)) /\
    state (self w') = state (self w) /\
    outstanding ComputeTimerCb (reactor w') = [].
Proof.
  intros Hw Ho Hle.
  assert (Hin : mkTimer h ComputeTimerCb (Some wk) ∈ timers (reactor w)).
  { eapply outstanding_elem. rewrite Ho. apply list_elem_of_here. }
  pose proof (fire_timer_due _ _ _ _ _ (handles_distinct _ Hw) Hin Hle) as Hfire.
  pose proof (compute_pass_spec _ _ _ _ Hw Hfire) as H. cbv zeta in H.
  destruct H as (Hct & Hs & _ & Hgone).
  simpl. rewrite Hfire.
  destruct (_compute_timer_cb ev _) as [w' out] eqn:Hcb. simpl in *.
  by exists w', out.
Qed.

End Burst.

(** ** Deferral while the tool-changer is busy *)

Lemma cb_frame (label : string) (t : Q) (v : Z) (ev : env) (w : world) :
  let w' := _cb label t v ev w in
  current_tool (self w') = current_tool (self w) /\
  t_indices (self w') = t_indices (self w) /\
  _pending_tc_ct (self w') = _pending_tc_ct (self w) /\
  _tc_timer (self w') = _tc_timer (self w) /\
  assign_delay (self w') = assign_delay (self w) /\
  sync_toolchanger (self w') = sync_toolchanger (self w) /\
  buttons w' = buttons w.
Proof.
  unfold _cb. destruct (decide _); [done|]. cbv zeta.
  match goal with |- context [_schedule_compute ?a ?b ?c ?x] =>
    pose proof (schedule_compute_frame a b c x) as Hfr end.
  cbv zeta in Hfr. destruct Hfr as (_ & -> & -> & -> & -> & -> & -> & ->). done.
Qed.

(** While busy, a step sends nothing; it stores the target of the decision it
    makes, if any, and keeps a retry timer armed once a target is stored. *)
Lemma busy_step (ev : env) (e : event) (w w' : world) (out : list string) :
  consistent w -> _toolchanger_busy ev = true ->
  step ev e w = Some (w', out) ->
  out = [] /\
  _pending_tc_ct (self w') =
    match decision ev e w with
    | Some ct => Some ct
    | None => _pending_tc_ct (self w)
    end /\
  (is_Some (decision ev e w) \/ is_Some (_tc_timer (self w)) ->
   is_Some (_tc_timer (self w'))).
Proof.
  intros Hw Hb Hstep. unfold decision.
  destruct e as [label v|h|]; simpl in Hstep |- *.
  - case_bool_decide; [|done]. injection Hstep as <- <-.
    pose proof (cb_frame label (monotonic ev) v ev w) as Hfr. cbv zeta in Hfr.
    destruct Hfr as (_ & _ & -> & -> & _). split; [done|]. split; [done|].
    intros [[? [=]]|?]; done.
  - destruct (fire_timer h (monotonic ev) (reactor w)) as [[[|] r']|] eqn:Hfire;
      [| |done]; simpl.
    + injection Hstep as Hstep. rewrite compute_timer_cb_unfold in Hstep.
      cbv zeta in Hstep.
      change (sync_toolchanger (self (with_reactor r' w)))
        with (sync_toolchanger (self w)) in Hstep.
      change (self (with_reactor r' w)) with (self w) in Hstep.
      set (ct := fst (_compute_current_tool (self w))) in *.
      set (w1 := with_self (set_current_tool ct (set_compute_timer None (self w)))
                   (with_reactor r' w)) in *.
      pose proof (defer_busy ct ev w1 Hb) as Hfr. cbv zeta in Hfr.
      destruct Hfr as (Hout & Hp & Htm & _).
      assert (Harmed : is_Some (_tc_timer (self (_sync_toolchanger_or_defer ct ev w1).1))).
      { destruct (_tc_timer (self w1)); destruct Htm as [-> _]; by eexists. }
      unfold _request_toolchanger_sync in Hstep.
      destruct (sync_toolchanger (self w)); simpl.
      * destruct (_is_printing ev); simpl; [destruct (0 <=? ct)|]; simpl.
        -- rewrite (surjective_pairing (_sync_toolchanger_or_defer ct ev w1)) in Hstep.
           injection Hstep as <- <-. done.
        -- injection Hstep as <- <-. split; [done|]. split; [done|].
           intros [[? [=]]|?]; done.
        -- rewrite (surjective_pairing (_sync_toolchanger_or_defer ct ev w1)) in Hstep.
           injection Hstep as <- <-. done.
      * injection Hstep as <- <-. split; [done|]. split; [done|].
        intros [[? [=]]|?]; done.
    + injection Hstep as Hstep.
      destruct (tc_timer_cb_spec _ _ _ _ Hw Hfire) as (ct & Hct & _ & _ & _ & _ & Hbusy).
      rewrite Hb, Hstep in Hbusy. simpl in Hbusy.
      destruct Hbusy as (-> & -> & -> & _). rewrite Hct. split; [done|]. split; [done|].
      intros _. by eexists.
  - injection Hstep as <- <-. split; [done|]. split; [done|].
    intros [[? [=]]|?]; done.
Qed.

Lemma busy_run (tr : trace) (w w' : world) (out : list string) :
  consistent w -> all_busy tr ->
  run tr w = Some (w', out) ->
  out = [] /\ consistent w' /\
  _pending_tc_ct (self w') =
    match last (decisions tr w) with
    | Some ct => Some ct
    | None => _pending_tc_ct (self w)
    end /\
  (decisions tr w <> [] \/ is_Some (_tc_timer (self w)) -> is_Some (_tc_timer (self w'))).
Proof.
  revert w out. induction tr as [|[ev e] tr IH]; intros w out Hw Hall Hrun.
  - simpl in *. injection Hrun as <- <-.
    split; [done|]. split; [done|]. split; [done|]. by intros [?|?].
  - apply Forall_cons in Hall as [Hb Hall]. simpl in Hb, Hrun |- *.
    destruct (step ev e w) as [[w1 out1]|] eqn:Hstep; [|done].
    destruct (run tr w1) as [[w2 out2]|] eqn:Hrun'; [|done].
    injection Hrun as <- <-.
    destruct (busy_step _ _ _ _ _ Hw Hb Hstep) as (-> & Hp1 & Ht1).
    pose proof (step_consistent _ _ _ _ _ Hw Hstep) as Hw1.
    destruct (IH _ _ Hw1 Hall Hrun') as (-> & Hw2 & Hp2 & Ht2).
    split; [done|]. split; [done|]. split.
    + rewrite Hp2, Hp1. destruct (decision ev e w) as [ct|]; simpl; [|done].
      rewrite last_cons. by destruct (last (decisions tr w1)).
    + intros Hor. apply Ht2.
      destruct (decisions tr w1) as [|c l] eqn:Hd; [right|by left].
      apply Ht1. rewrite app_nil_r in Hor.
      destruct Hor as [Hne|?]; [left|by right].
      destruct (decision ev e w); [by eexists|done].
Qed.

(** The first retry that finds the tool-changer free sends the stored target,
    once, and clears it. *)
Lemma retry_dispatches (ev : env) (w : world) (h : handle) (ct : Z) :
  consistent w ->
  _tc_timer (self w) = Some h -> _pending_tc_ct (self w) = Some ct ->
  _toolchanger_busy ev = false ->
  exists when, outstanding TcTimerCb (reactor w) = [mkTimer h TcTimerCb (Some when)] /\
    ((when <= monotonic ev)%Q ->
     exists w', step ev (TimerFire h) w = Some (w', _do_toolchanger_sync ct) /\
       _pending_tc_ct (self w') = None /\
       _tc_timer (self w') = None /\
       outstanding TcTimerCb (reactor w') = []).
Proof.
  intros Hw Hh Hct Hfree.
  pose proof (tc_timer_held _ Hw) as Hheld. rewrite Hh in Hheld. simpl in Hheld.
  destruct (held_timer _ _ _ Hheld) as [when Ho]. exists when. split; [done|].
  intros Hle.
  assert (Hin : mkTimer h TcTimerCb (Some when) ∈ timers (reactor w)).
  { eapply outstanding_elem. rewrite Ho. apply list_elem_of_here. }
  pose proof (fire_timer_due _ _ _ _ _ (handles_distinct _ Hw) Hin Hle) as Hfire.
  destruct (tc_timer_cb_spec _ _ _ _ Hw Hfire) as (ct' & Hct' & _ & _ & _ & _ & Hfr).
  rewrite Hfree in Hfr. rewrite Hct in Hct'. injection Hct' as <-.
  simpl. rewrite Hfire.
  destruct (_tc_timer_cb ev _) as [w' out]. simpl in Hfr.
  destruct Hfr as (-> & ? & ? & ?). by exists w'.
Qed.

(** ** Command texts *)

Lemma defer_commands (ct : Z) (ev : env) (w : world) :
  snd (_sync_toolchanger_or_defer ct ev w) = [] \/
  snd (_sync_toolchanger_or_defer ct ev w) = _do_toolchanger_sync ct.
Proof.
  destruct (_toolchanger_busy ev) eqn:Hb.
  - left. by destruct (defer_busy ct ev w Hb) as [? _].
  - right. by rewrite defer_not_busy.
Qed.

Lemma step_commands (ev : env) (e : event) (w w' : world) (out : list string) :
  step ev e w = Some (w', out) ->
  out = [] \/ exists ct, out = _do_toolchanger_sync ct.
Proof.
  destruct e as [label v|h|]; simpl.
  - case_bool_decide; [|done]. intros [= _ <-]. by left.
  - destruct (fire_timer h (monotonic ev) (reactor w)) as [[[|] r']|]; [| |done].
    + rewrite compute_timer_cb_unfold. cbv zeta.
      destruct (sync_toolchanger _); [|intros [= _ <-]; by left].
      unfold _request_toolchanger_sync.
      destruct (_is_printing ev); [destruct (0 <=? _)|];
        try (intros [= _ <-]; by left);
        match goal with |- Some (_sync_toolchanger_or_defer ?c ?e ?x) = _ -> _ =>
          pose proof (defer_commands c e x) as Hc;
          destruct (_sync_toolchanger_or_defer c e x) as [w1 o1]; simpl in Hc;
          intros [= _ <-]; destruct Hc; eauto end.
    + unfold _tc_timer_cb. simpl. destruct (_pending_tc_ct (self w)) as [ct|].
      * destruct (_toolchanger_busy ev); intros [= _ <-]; eauto.
      * intros [= _ <-]. by left.
  - intros [= _ <-]. by left.
Qed.

Lemma step_t_indices (ev : env) (e : event) (w w' : world) (out : list string) :
  step ev e w = Some (w', out) -> t_indices (self w') = t_indices (self w).
Proof.
  destruct e as [label v|h|]; simpl.
  - case_bool_decide; [|done]. intros [= <- _].
    by destruct (cb_frame label (monotonic ev) v ev w) as (_ & ? & _).
  - destruct (fire_timer h (monotonic ev) (reactor w)) as [[[|] r']|]; [| |done].
    + rewrite compute_timer_cb_unfold. cbv zeta.
      destruct (sync_toolchanger _); [|by intros [= <- _]].
      match goal with |- Some (_request_toolchanger_sync ?c ?e ?x) = _ -> _ =>
        pose proof (request_frame c e x) as Hfr; cbv zeta in Hfr;
        destruct (_request_toolchanger_sync c e x) as [w1 o1]; simpl in Hfr;
        intros [= <- _]; by destruct Hfr as (_ & _ & ? & _) end.
    + unfold _tc_timer_cb. simpl. destruct (_pending_tc_ct (self w)) as [ct|].
      * destruct (_toolchanger_busy ev); by intros [= <- _].
      * by intros [= <- _].
  - by intros [= <- _].
Qed.

(** ** Which steps touch the cached tool *)

Lemma step_current_tool (ev : env) (e : event) (w w' : world) (out : list string) :
  consistent w -> step ev e w = Some (w', out) ->
  current_tool (self w') =
    if decide (fired ev e w = Some ComputeTimerCb)
    then fst (_compute_current_tool (self w))
    else current_tool (self w).
Proof.
  intros Hw. destruct (decide (fired ev e w = Some ComputeTimerCb)) as [Hd|Hd];
    destruct e as [label v|h|]; simpl in Hd |- *; try done.
  - destruct (fire_timer h (monotonic ev) (reactor w)) as [[[|] r']|] eqn:Hfire;
      try done.
    pose proof (compute_pass_spec _ _ _ _ Hw Hfire) as Hp. cbv zeta in Hp.
    destruct (_compute_timer_cb ev _) as [w1 o1]. intros [= <- _].
    by destruct Hp as (? & _).
  - case_bool_decide; [|done]. intros [= <- _].
    by destruct (cb_frame label (monotonic ev) v ev w) as (? & _).
  - destruct (fire_timer h (monotonic ev) (reactor w)) as [[[|] r']|] eqn:Hfire;
      try done.
    unfold _tc_timer_cb. simpl.
    destruct (_pending_tc_ct (self w)); [destruct (_toolchanger_busy ev)|];
      by intros [= <- _].
  - by intros [= <- _].
Qed.

Lemma sample_world_reachable :
  reachable decimal_int sample_float any_pin sample_config sample_world.
Proof.
  apply (reach_init _ _ _ _ (host 0 None (Some "initializing"))). by vm_compute.
Qed.

Lemma plain_world_reachable :
  reachable decimal_int sample_float any_pin plain_config plain_world.
Proof.
  apply (reach_init _ _ _ _ (host 0 None (Some "initializing"))). by vm_compute.
Qed.

(** The walk-through of the specification, N = 3: all pins at 0 is Unknown;
    engaged with bay 1 empty is tool 1; released with all bays full is
    Unmounted. *)
Example walkthrough_all_zero : fst (compute_from 3 ∅) = -2.
Proof. reflexivity. Qed.

Example walkthrough_mounted :
  fst (compute_from 3 (list_to_map [("e", 1); ("t0", 1); ("t1", 0); ("t2", 1)])) = 1.
Proof. reflexivity. Qed.

Example walkthrough_unmounted :
  fst (compute_from 3 (list_to_map [("e", 0); ("t0", 1); ("t1", 1); ("t2", 1)])) = -1.
Proof. reflexivity. Qed.

(** A level outside {0,1} makes the snapshot invalid, whatever the rest says. *)
Example invalid_level_is_unknown :
  compute_from 2 (list_to_map [("e", 0); ("t0", 2); ("t1", 0)])
  = (-2, (2, Some 0, Some 2, Some 1, 1)).
Proof. reflexivity. Qed.

(** * Main results *)

(** C1. Tool inference follows the decision table: for every snapshot [st] and
    tool count [N], the integer returned is the code of [decision_table N st],
    that is Unknown (-2) when [N < 1] or when some value read is outside
    {0,1}; else Unmounted (-1) when [ex = 0] and [S = N]; else [Mounted i] when
    [ex = 1], [S = N - 1] and [i] is the one bay reading 0; else Unknown.
    The method applies this to [_tool_count] and [self.state], and a label
    missing from the store reads as 0. *)
Theorem inference_follows_decision_table (N : Z) (st : gmap string Z) (p : PinWatch) :
  fst (compute_from N st) = tool_code (decision_table N st) /\
  fst (_compute_current_tool p) = tool_code (decision_table (_tool_count p) (state p)) /\
  (forall label, state_get st label = match st !! label with Some v => v | None => 0 end).
Proof.
  split; [apply compute_from_table|]. split.
  - unfold _compute_current_tool. apply compute_from_table.
  - intros label. unfold state_get. by destruct (st !! label).
Qed.

(** C5. A pin event that repeats the stored level is a no-op: the whole world
    (store, timers, handles) is unchanged, so no recompute is scheduled; and of
    two deliveries of the same (label, value) the second is always a no-op. *)
Theorem duplicate_edge_is_noop (label : string) (s : Z) (t1 t2 : Q) (ev1 ev2 : env)
    (w : world) :
  (state (self w) !! label = Some s -> _cb label t1 s ev1 w = w) /\
  _cb label t2 s ev2 (_cb label t1 s ev1 w) = _cb label t1 s ev1 w /\
  (forall w1 out, step ev1 (PinEdge label s) w = Some (w1, out) ->
     step ev2 (PinEdge label s) w1 = Some (w1, [])).
Proof.
  split; [apply cb_duplicate|]. split.
  - apply cb_duplicate, cb_stores.
  - intros w1 out. simpl. case_bool_decide as Hreg; [|done]. intros [= <- _].
    destruct (cb_frame label (monotonic ev1) s ev1 w) as (_ & _ & _ & _ & _ & _ & Hb).
    rewrite Hb. rewrite bool_decide_eq_true_2 by done.
    by rewrite cb_duplicate by apply cb_stores.
Qed.

Lemma duplicate_edge_is_noop_witness :
  state (self sample_world) !! "e" = Some 0 /\
  _cb "e" 1 0 (host 1 None None) sample_world = sample_world.
Proof.
  destruct (duplicate_edge_is_noop "e" 0 1 2 (host 1 None None) (host 2 None None)
              sample_world) as [Hnoop _].
  split; [reflexivity|]. apply Hnoop. reflexivity.
Defined.

(** C8. Without any [pin_] option the constructor fails: it raises the
    configuration error, unless reading one of the scalar options has already
    raised; with at least one [pin_] option it never raises that error. *)
Theorem no_pins_fails_construction (py_int : string -> option Z)
    (py_float : string -> option Q) (pin_ok : string -> bool) (cfg : config) (ev : env) :
  (get_prefix_options "pin_" cfg = [] ->
   exists e, __init__ py_int py_float pin_ok cfg ev = inl e /\
     (e = ConfigError no_pins_message \/ e = ValueError) /\
     (is_Some (config_flag py_int "sync_toolchanger" 1 cfg) ->
      is_Some (config_flag py_int "verbose" 0 cfg) ->
      is_Some (config_float py_float "assign_delay" 0%Q cfg) ->
      e = ConfigError no_pins_message)) /\
  (get_prefix_options "pin_" cfg <> [] ->
   __init__ py_int py_float pin_ok cfg ev <> inl (ConfigError no_pins_message)).
Proof.
  unfold __init__. split.
  - intros ->.
    destruct (config_flag _ _ 1 cfg);
      [|eexists; split; [done|]; split; [by right|]; by intros [? ?]].
    destruct (config_flag _ _ 0 cfg);
      [|eexists; split; [done|]; split; [by right|]; by intros _ [? ?]].
    destruct (config_float _ _ _ cfg);
      [|eexists; split; [done|]; split; [by right|]; by intros _ _ [? ?]].
    eexists. split; [done|]. split; [by left|done].
  - intros Hne.
    destruct (config_flag _ _ 1 cfg); [|done].
    destruct (config_flag _ _ 0 cfg); [|done].
    destruct (config_float _ _ _ cfg); [|done].
    destruct (get_prefix_options _ cfg) as [|o opts] eqn:Ho; [done|].
    clear Hne. revert Ho. generalize (o :: opts). intros l _.
    match goal with |- context [add_pins _ _ _ ?w0 _] => generalize w0 end.
    induction l as [|opt l IH]; intros w0; simpl; [done|].
    unfold add_pin at 1. destruct (pin_ok _); [apply IH|done].
Qed.

Lemma no_pins_fails_construction_witness :
  __init__ decimal_int sample_float any_pin empty_config (host 0 None None)
    = inl (ConfigError no_pins_message) /\
  __init__ decimal_int sample_float any_pin sample_config (host 0 None None)
    <> inl (ConfigError no_pins_message).
Proof.
  destruct (no_pins_fails_construction decimal_int sample_float any_pin empty_config
              (host 0 None None)) as [Hnone _].
  destruct (no_pins_fails_construction decimal_int sample_float any_pin sample_config
              (host 0 None None)) as [_ Hsome].
  split.
  - destruct Hnone as (e & He & _ & Hcfg); [reflexivity|].
    rewrite He. f_equal. apply Hcfg; vm_compute; eauto.
  - apply Hsome. vm_compute. discriminate.
Defined.

(** C9. In every reachable world the cached [current_tool] is -2, -1 or an
    index in [0, N); every inference pass caches such a value and no other step
    changes it; [get_status] returns the cached integer, and a status poll
    leaves the world as it is. *)
Theorem current_tool_always_valid (py_int : string -> option Z)
    (py_float : string -> option Q) (pin_ok : string -> bool) (cfg : config) (w : world) :
  reachable py_int py_float pin_ok cfg w ->
  valid_tool (_tool_count (self w)) (current_tool (self w)) /\
  valid_tool (_tool_count (self w)) (fst (_compute_current_tool (self w))) /\
  (forall ev e w' out, step ev e w = Some (w', out) ->
     _tool_count (self w') = _tool_count (self w) /\
     current_tool (self w') =
       if decide (fired ev e w = Some ComputeTimerCb)
       then fst (_compute_current_tool (self w))
       else current_tool (self w)) /\
  (forall t, get_status t (self w) = {[ "current_tool" := current_tool (self w) ]}) /\
  (forall ev, step ev StatusPoll w = Some (w, [])).
Proof.
  intros Hw%reachable_consistent.
  split; [apply (current_tool_valid _ Hw)|].
  split; [apply compute_from_valid|].
  split; [|done].
  intros ev e w' out Hstep. split.
  - unfold _tool_count. by rewrite (step_t_indices _ _ _ _ _ Hstep).
  - by apply (step_current_tool _ _ _ _ _ Hw Hstep).
Qed.

Lemma current_tool_always_valid_witness :
  valid_tool 2 (current_tool (self sample_world)) /\
  get_status 0 (self sample_world) = {[ "current_tool" := -2 ]}.
Proof.
  destruct (current_tool_always_valid decimal_int sample_float any_pin sample_config
              sample_world sample_world_reachable) as (Hv & _ & _ & Hg & _).
  split; [exact Hv | exact (Hg 0%Q)].
Defined.

(** C10. Labels the algorithm does not read cannot influence it: two objects
    with the same bay indices whose stores agree on [e] and on [t0 .. t(N-1)]
    (as read, absent meaning 0) get the same result and the same diagnostics,
    whatever else their stores hold. *)
Theorem unread_labels_do_not_interfere (p1 p2 : PinWatch) :
  t_indices p1 = t_indices p2 ->
  state_get (state p1) "e" = state_get (state p2) "e" ->
  (forall i, 0 <= i < _tool_count p1 ->
     state_get (state p1) (bay_label i) = state_get (state p2) (bay_label i)) ->
  _compute_current_tool p1 = _compute_current_tool p2.
Proof.
  intros Hti He Hb. unfold _compute_current_tool.
  assert (HN : _tool_count p2 = _tool_count p1) by (unfold _tool_count; by rewrite Hti).
  rewrite HN. by apply compute_from_ext.
Qed.

Lemma unread_labels_do_not_interfere_witness :
  _compute_current_tool
    (set_state (list_to_map [("e", 1); ("t0", 0); ("t1", 1); ("t7", 5); ("door", 3)])
       (self sample_world)) =
  _compute_current_tool
    (set_state (list_to_map [("e", 1); ("t1", 1); ("t2", 0); ("tx", 1)])
       (self sample_world)).
Proof.
  apply unread_labels_do_not_interfere.
  - reflexivity.
  - reflexivity.
  - intros i Hi. change (_tool_count _) with 2 in Hi.
    assert (Hcases : i = 0 \/ i = 1) by lia.
    destruct Hcases as [-> | ->]; reflexivity.
Defined.

(** C6. At most one timer of each kind is outstanding in every reachable
    world. Scheduling a recompute leaves exactly the newly armed timer, any
    earlier one being discarded. In a burst of edges, each event arriving less
    than [assign_delay] after the edge before it (an edge being a change of
    level; repeated deliveries may come in between), no inference pass runs;
    afterwards the store holds the levels of all edges and exactly one
    recompute is outstanding, due [assign_delay] after the last edge; firing it
    runs one pass on that store and leaves no recompute behind. A dispatch
    decision taken while a retry timer is outstanding arms no other. *)
Theorem timers_never_stack (py_int : string -> option Z)
    (py_float : string -> option Q) (pin_ok : string -> bool) (cfg : config) (w : world) :
  reachable py_int py_float pin_ok cfg w ->
  ((length (outstanding ComputeTimerCb (reactor w)) <= 1)%nat /\
   (length (outstanding TcTimerCb (reactor w)) <= 1)%nat) /\
  (forall reason delay ev,
     outstanding ComputeTimerCb (reactor (_schedule_compute reason delay ev w)) =
     [mkTimer (next_handle (reactor w)) ComputeTimerCb
              (Some (monotonic ev + clamp_delay delay)%Q)]) /\
  (forall ev0 label v tr w' out,
     state (self w) !! label <> Some v ->
     burst (assign_delay (self w)) (<[label := v]> (state (self w))) (monotonic ev0) tr ->
     run ((ev0, PinEdge label v) :: tr) w = Some (w', out) ->
     inference_passes ((ev0, PinEdge label v) :: tr) w = 0%nat /\
     state (self w') = edges_applied ((ev0, PinEdge label v) :: tr) (state (self w)) /\
     exists h,
       outstanding ComputeTimerCb (reactor w') =
         [mkTimer h ComputeTimerCb
            (Some (last_change_time tr (<[label := v]> (state (self w))) (monotonic ev0)
                   + clamp_delay (assign_delay (self w)))%Q)] /\
       forall ev,
         (last_change_time tr (<[label := v]> (state (self w))) (monotonic ev0)
          + clamp_delay (assign_delay (self w)) <= monotonic ev)%Q ->
         exists w'' out',
           step ev (TimerFire h) w' = Some (w'', out') /\
           fired ev (TimerFire h) w' = Some ComputeTimerCb /\
           current_tool (self w'') = fst (_compute_current_tool (self w')) /\
           state (self w'') = state (self w') /\
           outstanding ComputeTimerCb (reactor w'') = []) /\
  (forall ct ev,
     outstanding TcTimerCb (reactor w) <> [] ->
     reactor (fst (_sync_toolchanger_or_defer ct ev w)) = reactor w).
Proof.
  intros Hw%reachable_consistent. split; [|split; [|split]].
  - pose proof (compute_timer_held _ Hw) as Hc. pose proof (tc_timer_held _ Hw) as Ht.
    apply (f_equal length) in Hc, Ht. rewrite length_fmap in Hc, Ht.
    rewrite Hc, Ht. split.
    + by destruct (_compute_timer (self w)); simpl; lia.
    + by destruct (_tc_timer (self w)); simpl; lia.
  - intros reason delay ev.
    by destruct (schedule_compute_outstanding reason delay ev w (compute_timer_held _ Hw)).
  - intros ev0 label v tr w' out Hne Hb Hrun. simpl in Hrun |- *.
    destruct (bool_decide _); [|done].
    destruct (run tr _) as [[w2 out2]|] eqn:Hrun'; [|done].
    injection Hrun as <- _.
    pose proof (edge_arms_recompute _ label v ev0 w Hw eq_refl Hne) as Hp.
    destruct (burst_coalesced _ _ _ _ _ _ _ Hp Hb Hrun')
      as (Hnone & Hw2 & Hst & _ & h & Ho).
    split; [by rewrite Hnone|]. split; [done|].
    exists h. split; [done|]. intros ev Hdue.
    exact (recompute_fires ev w2 h _ Hw2 Ho Hdue).
  - intros ct ev Hne.
    destruct (_toolchanger_busy ev) eqn:Hb; [|by rewrite defer_not_busy].
    pose proof (defer_busy ct ev w Hb) as Hd. cbv zeta in Hd.
    destruct Hd as (_ & _ & Htm & _).
    pose proof (tc_timer_held _ Hw) as Ht.
    destruct (_tc_timer (self w)); [by destruct Htm|].
    by apply handles_nil in Ht.
Qed.

Lemma timers_never_stack_witness :
  match run sample_burst sample_world with
  | Some (w', _) =>
      inference_passes sample_burst sample_world = 0%nat /\
      state_get (state (self w')) "e" = 1 /\
      state_get (state (self w')) "t0" = 1 /\
      exists h, outstanding ComputeTimerCb (reactor w') =
                  [mkTimer h ComputeTimerCb (Some ((12 # 10) + (1 # 2))%Q)]
  | None => False
  end.
Proof.
  destruct (timers_never_stack decimal_int sample_float any_pin sample_config
              sample_world sample_world_reachable) as (_ & _ & Hburst & _).
  destruct (run sample_burst sample_world) as [[w' out]|] eqn:Hrun.
  - destruct (Hburst (host 1 None None) "e" 1 sample_burst_tail w' out)
      as (Hnone & Hst & h & Ho & _).
    + vm_compute. discriminate.
    + vm_compute. repeat split; discriminate.
    + exact Hrun.
    + split; [exact Hnone|]. rewrite Hst.
      split; [reflexivity|]. split; [reflexivity|]. exists h. exact Ho.
  - vm_compute in Hrun. discriminate.
Defined.

(** C4. A decision taken while the tool-changer is busy sends nothing, stores
    the target and arms a retry 0.1 s ahead unless one is already held. A retry
    that still finds it busy sends nothing, keeps the target and re-arms 0.1 s
    ahead. After any run of steps during which the tool-changer was busy
    throughout, nothing has been sent and the stored target is that of the
    latest decision; the first retry that finds the tool-changer free sends
    exactly one command, the one for that target, and clears it. *)
Theorem busy_decisions_are_deferred (py_int : string -> option Z)
    (py_float : string -> option Q) (pin_ok : string -> bool) (cfg : config) (w : world) :
  reachable py_int py_float pin_ok cfg w ->
  (forall w0 ct ev, _toolchanger_busy ev = true ->
     snd (_sync_toolchanger_or_defer ct ev w0) = [] /\
     _pending_tc_ct (self (fst (_sync_toolchanger_or_defer ct ev w0))) = Some ct /\
     match _tc_timer (self w0) with
     | Some h =>
         _tc_timer (self (fst (_sync_toolchanger_or_defer ct ev w0))) = Some h /\
         reactor (fst (_sync_toolchanger_or_defer ct ev w0)) = reactor w0
     | None =>
         _tc_timer (self (fst (_sync_toolchanger_or_defer ct ev w0)))
           = Some (next_handle (reactor w0)) /\
         reactor (fst (_sync_toolchanger_or_defer ct ev w0)) =
           snd (register_timer TcTimerCb (monotonic ev + (1 # 10))%Q (reactor w0))
     end) /\
  (forall h ev w' out, _toolchanger_busy ev = true ->
     fired ev (TimerFire h) w = Some TcTimerCb ->
     step ev (TimerFire h) w = Some (w', out) ->
     out = [] /\
     _pending_tc_ct (self w') = _pending_tc_ct (self w) /\
     outstanding TcTimerCb (reactor w') =
       [mkTimer (next_handle (reactor w)) TcTimerCb (Some (monotonic ev + (1 # 10))%Q)]) /\
  (forall tr w1 out ct, all_busy tr ->
     run tr w = Some (w1, out) ->
     last (decisions tr w) = Some ct ->
     out = [] /\
     _pending_tc_ct (self w1) = Some ct /\
     exists h when,
       outstanding TcTimerCb (reactor w1) = [mkTimer h TcTimerCb (Some when)] /\
       forall ev, _toolchanger_busy ev = false -> (when <= monotonic ev)%Q ->
         exists w2,
           step ev (TimerFire h) w1 = Some (w2, _do_toolchanger_sync ct) /\
           length (_do_toolchanger_sync ct) = 1%nat /\
           _pending_tc_ct (self w2) = None /\
           outstanding TcTimerCb (reactor w2) = []).
Proof.
  intros Hw%reachable_consistent. split; [|split].
  - intros w0 ct ev Hb. pose proof (defer_busy ct ev w0 Hb) as Hd. cbv zeta in Hd.
    destruct Hd as (? & ? & ? & _). done.
  - intros h ev w' out Hb Hf Hstep. simpl in Hf, Hstep.
    destruct (fire_timer h (monotonic ev) (reactor w)) as [[[|] r']|] eqn:Hfire;
      try done.
    injection Hstep as Hstep.
    destruct (tc_timer_cb_spec _ _ _ _ Hw Hfire) as (ct & Hct & _ & _ & _ & _ & Hbusy).
    rewrite Hb, Hstep in Hbusy. simpl in Hbusy.
    destruct Hbusy as (? & ? & _ & ?). by rewrite Hct.
  - intros tr w1 out ct Hall Hrun Hlast.
    destruct (busy_run _ _ _ _ Hw Hall Hrun) as (-> & Hw1 & Hp & Ht).
    rewrite Hlast in Hp. split; [done|]. split; [done|].
    destruct Ht as [h Hh].
    { left. intros Hnil. by rewrite Hnil in Hlast. }
    exists h.
    pose proof (tc_timer_held _ Hw1) as Hheld. rewrite Hh in Hheld.
    destruct (held_timer _ _ _ Hheld) as [when Ho]. exists when. split; [done|].
    intros ev Hfree Hdue.
    destruct (retry_dispatches ev w1 h ct Hw1 Hh Hp Hfree) as (when' & Ho' & Hfire).
    rewrite Ho in Ho'. injection Ho' as <-.
    destruct (Hfire Hdue) as (w2 & Hstep & ? & _ & ?).
    exists w2. split; [done|]. split; [|done].
    by destruct (do_sync_one_command ct) as (line & -> & _).
Qed.

Lemma busy_decisions_are_deferred_witness :
  match run busy_phase sample_world with
  | Some (w1, out) =>
      out = [] /\ _pending_tc_ct (self w1) = Some (-2) /\
      exists w2, step (host (2 # 10) None (Some "ready")) (TimerFire 2%nat) w1
                 = Some (w2, ["UNSELECT_TOOL"])
  | None => False
  end.
Proof.
  destruct (busy_decisions_are_deferred decimal_int sample_float any_pin sample_config
              sample_world sample_world_reachable) as (_ & _ & Hphase).
  destruct (run busy_phase sample_world) as [[w1 out]|] eqn:Hrun.
  - destruct (Hphase busy_phase w1 out (-2)) as (Hout & Hp & h & when & Ho & Hfree).
    + repeat constructor.
    + exact Hrun.
    + reflexivity.
    + split; [exact Hout|]. split; [exact Hp|].
      vm_compute in Hrun. injection Hrun as <- _.
      vm_compute in Ho. injection Ho as <- <-.
      destruct (Hfree (host (2 # 10) None (Some "ready"))) as (w2 & Hstep & _).
      * reflexivity.
      * vm_compute. discriminate.
      * exists w2. exact Hstep.
  - vm_compute in Hrun. discriminate.
Defined.

(** C7, as the code has it. When the printer is not printing, a decision for a
    well-formed result [t] sends exactly [command_for t], that is
    [INITIALIZE_TOOLCHANGER T=<n>] for [Mounted n] and [UNSELECT_TOOL] for
    Unmounted or Unknown, provided the tool-changer is not busy; when it is busy
    the decision sends nothing (the target is stored for the retry timer). No
    step ever sends more than one line, or a line other than these two. *)
Theorem idle_decision_mirrors_inference (t : InferredTool) (ev : env) (w : world) :
  _is_printing ev = false ->
  (forall n, t = Mounted n -> 0 <= n) ->
  snd (_request_toolchanger_sync (tool_code t) ev w) =
    (if _toolchanger_busy ev then [] else [command_for t]) /\
  (_toolchanger_busy ev = true ->
   _pending_tc_ct (self (fst (_request_toolchanger_sync (tool_code t) ev w)))
     = Some (tool_code t)) /\
  (forall ev' e w1 w2 out, step ev' e w1 = Some (w2, out) ->
     (length out <= 1)%nat /\ Forall is_command out).
Proof.
  intros Hidle Hwf. unfold _request_toolchanger_sync. rewrite Hidle.
  split; [|split].
  - destruct (_toolchanger_busy ev) eqn:Hb.
    + by destruct (defer_busy (tool_code t) ev w Hb) as [? _].
    + rewrite defer_not_busy by done. simpl. unfold _do_toolchanger_sync.
      destruct t as [| |n]; simpl; try done.
      specialize (Hwf n eq_refl). by destruct (Z.leb_spec 0 n); [|lia].
  - intros Hb. by destruct (defer_busy (tool_code t) ev w Hb) as (_ & ? & _).
  - intros ev' e w1 w2 out Hstep.
    destruct (step_commands _ _ _ _ _ Hstep) as [->|[ct ->]];
      [split; [simpl; lia | constructor]|].
    destruct (do_sync_one_command ct) as (line & -> & Hline). split; [simpl; lia|].
    by apply Forall_singleton.
Qed.

Lemma idle_decision_mirrors_inference_witness :
  snd (_request_toolchanger_sync 1 (host 0 None (Some "ready")) sample_world)
    = ["INITIALIZE_TOOLCHANGER T=1"] /\
  snd (_request_toolchanger_sync (-1) (host 0 None (Some "ready")) sample_world)
    = ["UNSELECT_TOOL"].
Proof.
  split.
  - apply (idle_decision_mirrors_inference (Mounted 1) (host 0 None (Some "ready"))
             sample_world); [reflexivity|]. intros n [= <-]. lia.
  - apply (idle_decision_mirrors_inference Unmounted (host 0 None (Some "ready"))
             sample_world); [reflexivity|]. intros n [=].
Defined.

(** C7 as stated fails: the printer is idle and tool 0 is inferred, but the
    tool-changer is busy, and the decision sends no command at all. *)
Lemma idle_decision_silent_when_busy :
  _is_printing (host 0 None (Some "changing")) = false /\
  snd (_request_toolchanger_sync (tool_code (Mounted 0))
         (host 0 None (Some "changing")) sample_world) = [] /\
  snd (_request_toolchanger_sync (tool_code (Mounted 0))
         (host 0 None (Some "changing")) sample_world) <> [command_for (Mounted 0)].
Proof. split; [reflexivity|]. split; [reflexivity|]. vm_compute. discriminate. Qed.

(** What holds of C2: the decision path itself never sends [UNSELECT_TOOL]
    while a print is running. *)
Lemma decision_never_unselects_while_printing (ct : Z) (ev : env) (w : world) :
  _is_printing ev = true ->
  "UNSELECT_TOOL" ∉ snd (_request_toolchanger_sync ct ev w).
Proof.
  intros Hp. unfold _request_toolchanger_sync. rewrite Hp.
  destruct (Z.leb_spec 0 ct) as [Hge|Hlt]; [|by apply not_elem_of_nil].
  destruct (defer_commands ct ev w) as [-> | ->]; [by apply not_elem_of_nil|].
  unfold _do_toolchanger_sync. destruct (Z.leb_spec 0 ct); [|lia].
  intros Hin. apply list_elem_of_singleton in Hin. discriminate.
Qed.

(** C2 fails on the retry path: the start-up decision (Unknown, not printing)
    is deferred because the tool-changer is initialising; a print then starts,
    and the retry timer sends [UNSELECT_TOOL] during the print. *)
Theorem retry_unselects_during_print :
  reachable decimal_int sample_float any_pin plain_config plain_world /\
  _is_printing (host (1 # 10) (Some "printing") (Some "ready")) = true /\
  exists w1 w2,
    step (host 0 None (Some "initializing")) (TimerFire 0%nat) plain_world
      = Some (w1, []) /\
    _pending_tc_ct (self w1) = Some (-2) /\
    step (host (1 # 10) (Some "printing") (Some "ready")) (TimerFire 1%nat) w1
      = Some (w2, ["UNSELECT_TOOL"]).
Proof.
  split; [exact plain_world_reachable|]. split; [reflexivity|].
  destruct (step (host 0 None (Some "initializing")) (TimerFire 0%nat) plain_world)
    as [[w1 out1]|] eqn:H1; vm_compute in H1; [|discriminate].
  injection H1 as <- <-.
  eexists _, _. split; [reflexivity|]. split; [reflexivity|]. vm_compute. reflexivity.
Qed.

(** C3 fails when the newer decision is dispatched directly: the deferred
    start-up target (Unknown) stays stored and its retry timer stays armed
    while tool 1 is picked up and [INITIALIZE_TOOLCHANGER T=1] is sent; the
    retry then sends the stale [UNSELECT_TOOL]. *)
Theorem stale_target_sent_after_direct_dispatch :
  reachable decimal_int sample_float any_pin plain_config plain_world /\
  exists w4 w5,
    run (take 4 pickup_while_deferred) plain_world
      = Some (w4, ["INITIALIZE_TOOLCHANGER T=1"]) /\
    current_tool (self w4) = 1 /\
    _pending_tc_ct (self w4) = Some (-2) /\
    _tc_timer (self w4) = Some 1%nat /\
    step (host (1 # 10) None (Some "ready")) (TimerFire 1%nat) w4
      = Some (w5, ["UNSELECT_TOOL"]) /\
    run pickup_while_deferred plain_world
      = Some (w5, ["INITIALIZE_TOOLCHANGER T=1"; "UNSELECT_TOOL"]).
Proof.
  split; [exact plain_world_reachable|].
  destruct (run (take 4 pickup_while_deferred) plain_world) as [[w4 out4]|] eqn:H4;
    vm_compute in H4; [|discriminate].
  injection H4 as <- <-.
  eexists _, _. split; [reflexivity|]. repeat (split; [reflexivity|]).
  split; vm_compute; reflexivity.
Qed.

(** * Further properties *)

(** ** The tool count *)

Lemma foldr_max_elem (x : Z) (l : list Z) : foldr Z.max x l ∈ x :: l.
Proof.
  induction l as [|y l IH]; simpl; [apply list_elem_of_here|].
  destruct (Z.max_spec y (foldr Z.max x l)) as [[_ ->]|[_ ->]].
  - apply elem_of_cons in IH as [->|IH]; [apply list_elem_of_here|].
    by do 2 apply list_elem_of_further.
  - apply list_elem_of_further, list_elem_of_here.
Qed.

Lemma foldr_max_upper (x : Z) (l : list Z) (y : Z) :
  y ∈ x :: l -> y <= foldr Z.max x l.
Proof.
  induction l as [|z l IH]; simpl.
  - intros Hy. apply list_elem_of_singleton in Hy. lia.
  - intros Hy. apply elem_of_cons in Hy as [Hy|Hy].
    + assert (y <= foldr Z.max x l) by (apply IH; rewrite Hy; apply list_elem_of_here).
      lia.
    + apply elem_of_cons in Hy as [Hy|Hy]; [lia|].
      assert (y <= foldr Z.max x l) by (apply IH; by apply list_elem_of_further). lia.
Qed.

(** X1. With no bay index the tool count is 0; otherwise it is one more than
    the largest index: [N - 1] is an index and every index is below [N]. *)
Theorem tool_count_is_max_plus_one (p : PinWatch) :
  (t_indices p = ∅ /\ _tool_count p = 0) \/
  (_tool_count p - 1 ∈ t_indices p /\ forall i, i ∈ t_indices p -> i < _tool_count p).
Proof.
  unfold _tool_count. destruct (elements (t_indices p)) as [|x l] eqn:Hel.
  - left. split; [|done]. by apply elements_empty_inv, leibniz_equiv in Hel.
  - right. split.
    + apply elem_of_elements. rewrite Hel.
      replace (foldr Z.max x l + 1 - 1) with (foldr Z.max x l) by lia.
      apply foldr_max_elem.
    + intros i Hi. apply elem_of_elements in Hi. rewrite Hel in Hi.
      apply foldr_max_upper in Hi. lia.
Qed.

(** ** Which sensor patterns give which result *)

Lemma bits_all_valid (f : Z -> Z) (l : list Z) :
  forallb in_0_1 (f <$> l) = true <-> forall j, j ∈ l -> f j = 0 \/ f j = 1.
Proof.
  induction l as [|x l IH]; simpl.
  - split; [|done]. by intros _ j ?%elem_of_nil.
  - rewrite andb_true_iff, IH. unfold in_0_1. rewrite orb_true_iff, !Z.eqb_eq. split.
    + intros [Hx Hl] j [->|Hj]%elem_of_cons; auto.
    + intros H. split; [apply H, list_elem_of_here|].
      intros j Hj. by apply H, list_elem_of_further.
Qed.

Lemma bits_sum_count (f : Z -> Z) (l : list Z) :
  forallb in_0_1 (f <$> l) = true ->
  sum_list_Z (f <$> l) + Z.of_nat (length (filter (fun i => f i = 0) l))
  = Z.of_nat (length l).
Proof.
  induction l as [|x l IH]; [done|].
  rewrite fmap_cons, filter_cons. cbn [forallb sum_list_Z foldr].
  fold (sum_list_Z (f <$> l)).
  intros [Hx Hl]%andb_prop. specialize (IH Hl). unfold in_0_1 in Hx.
  destruct (decide (f x = 0)) as [->|Hne]; cbn [length]; [lia|].
  assert (f x = 1) by lia. lia.
Qed.

Lemma filter_none (P : Z -> Prop) `{forall j, Decision (P j)} (l : list Z) :
  (forall j, j ∈ l -> ~ P j) -> filter P l = [].
Proof.
  induction l as [|x l IH]; [done|]. intros HP.
  rewrite filter_cons, decide_False by (apply HP, list_elem_of_here).
  apply IH. intros j Hj. by apply HP, list_elem_of_further.
Qed.

Lemma filter_only (P : Z -> Prop) `{forall j, Decision (P j)} (l : list Z) (i : Z) :
  NoDup l -> i ∈ l -> (forall j, j ∈ l -> P j <-> j = i) -> filter P l = [i].
Proof.
  induction l as [|x l IH]; [by intros _ ?%elem_of_nil|].
  intros [Hx Hnd]%NoDup_cons Hi HP. rewrite filter_cons.
  destruct (decide (x = i)) as [->|Hne].
  - rewrite decide_True by (apply HP; [apply list_elem_of_here|done]).
    f_equal. apply filter_none. intros j Hj Hp.
    apply HP in Hp; [|by apply list_elem_of_further]. by subst.
  - rewrite decide_False.
    2:{ intros Hp. apply HP in Hp; [done|apply list_elem_of_here]. }
    apply elem_of_cons in Hi as [?|Hi]; [done|].
    apply IH; [done..|]. intros j Hj. by apply HP, list_elem_of_further.
Qed.

Lemma table_mounted (N : Z) (st : gmap string Z) (i : Z) :
  decision_table N st = Mounted i <->
  0 <= i < N /\ state_get st "e" = 1 /\
  forall j, 0 <= j < N -> bay_value st j = if decide (j = i) then 0 else 1.
Proof.
  unfold decision_table, invalid_snapshot, bay_values, empty_bays. split.
  - destruct (decide (N < 1)); [done|].
    destruct (in_0_1 (state_get st "e") && _) eqn:Hvalid; [|done]. simpl.
    apply andb_prop in Hvalid as [_ Hbits].
    destruct (decide _); [done|].
    destruct (filter _ _) as [|k [|k' l]] eqn:Hemp; try done.
    destruct (decide _) as [[He _]|]; [|done]. intros [= ->].
    assert (Hin : forall j, j ∈ filter (fun j => bay_value st j = 0) (seqZ 0 N) <-> j = i).
    { intros j. rewrite Hemp. apply list_elem_of_singleton. }
    assert (Hi : 0 <= i < N).
    { pose proof (proj2 (Hin i) eq_refl) as Hi.
      pose proof (proj1 (list_elem_of_filter _ _ _) Hi) as [_ Hr].
      apply elem_of_seqZ in Hr. lia. }
    split; [done|]. split; [done|]. intros j Hj.
    assert (Hjs : j ∈ seqZ 0 N) by (apply elem_of_seqZ; lia).
    pose proof (proj1 (bits_all_valid _ _) Hbits j Hjs) as Hv.
    destruct (decide (j = i)) as [->|Hne].
    + pose proof (proj2 (Hin i) eq_refl) as Hi'.
      by pose proof (proj1 (list_elem_of_filter _ _ _) Hi') as [? _].
    + destruct Hv as [Hz|?]; [|done]. exfalso. apply Hne, Hin.
      by apply list_elem_of_filter.
  - intros (Hi & He & Hpat).
    rewrite decide_False by lia.
    assert (Hbits : forallb in_0_1 (bay_value st <$> seqZ 0 N) = true).
    { apply bits_all_valid. intros j Hj%elem_of_seqZ.
      rewrite Hpat by lia. destruct (decide _); auto. }
    assert (Hemp : filter (fun j => bay_value st j = 0) (seqZ 0 N) = [i]).
    { apply filter_only; [apply NoDup_seqZ|apply elem_of_seqZ; lia|].
      intros j Hj%elem_of_seqZ. rewrite Hpat by lia.
      destruct (decide (j = i)); split; done. }
    pose proof (bits_sum_count _ _ Hbits) as Hsum.
    rewrite Hemp, length_seqZ in Hsum. simpl in Hsum.
    rewrite He, Hbits, Hemp. simpl.
    rewrite decide_True; [done|]. split; [done|]. lia.
Qed.

Lemma table_unmounted (N : Z) (st : gmap string Z) :
  decision_table N st = Unmounted <->
  1 <= N /\ state_get st "e" = 0 /\ forall j, 0 <= j < N -> bay_value st j = 1.
Proof.
  unfold decision_table, invalid_snapshot, bay_values, empty_bays. split.
  - destruct (decide (N < 1)); [done|].
    destruct (in_0_1 (state_get st "e") && _) eqn:Hvalid; [|done]. simpl.
    apply andb_prop in Hvalid as [_ Hbits].
    destruct (decide _) as [[He HS]|].
    + intros _. split; [lia|]. split; [done|]. intros j Hj.
      pose proof (bits_sum_count _ _ Hbits) as Hsum.
      rewrite HS, length_seqZ in Hsum.
      assert (Hnone : filter (fun i => bay_value st i = 0) (seqZ 0 N) = []).
      { apply length_zero_iff_nil. lia. }
      assert (Hjs : j ∈ seqZ 0 N) by (apply elem_of_seqZ; lia).
      destruct (proj1 (bits_all_valid _ _) Hbits j Hjs) as [Hz|?]; [|done].
      exfalso. by apply (filter_nil_not_elem_of _ _ j Hnone).
    + destruct (filter _ _) as [|k [|k' l]]; try done. by destruct (decide _).
  - intros (HN & He & Hpat).
    rewrite decide_False by lia.
    assert (Hbits : forallb in_0_1 (bay_value st <$> seqZ 0 N) = true).
    { apply bits_all_valid. intros j Hj%elem_of_seqZ. rewrite Hpat by lia. auto. }
    assert (Hemp : filter (fun j => bay_value st j = 0) (seqZ 0 N) = []).
    { apply filter_none. intros j Hj%elem_of_seqZ. rewrite Hpat by lia. done. }
    pose proof (bits_sum_count _ _ Hbits) as Hsum.
    rewrite Hemp, length_seqZ in Hsum. simpl in Hsum.
    rewrite He, Hbits. simpl. rewrite decide_True; [done|]. split; [done|]. lia.
Qed.

Lemma tool_code_mounted (t : InferredTool) (i : Z) :
  0 <= i -> tool_code t = i -> t = Mounted i.
Proof. destruct t; simpl; intros; first [lia | by subst]. Qed.

(** X3. Tool [i] is reported exactly when the engagement pin reads 1, bay [i]
    reads 0 and every other bay below [N] reads 1. *)
Theorem mounted_iff_exactly_one_vacancy (N : Z) (st : gmap string Z) (i : Z) :
  0 <= i ->
  (fst (compute_from N st) = i <->
   i < N /\ state_get st "e" = 1 /\
   forall j, 0 <= j < N -> bay_value st j = if decide (j = i) then 0 else 1).
Proof.
  intros Hi. rewrite compute_from_table. split.
  - intros Ht%tool_code_mounted; [|done]. apply table_mounted in Ht. tauto.
  - intros (HN & He & Hpat).
    assert (Ht : decision_table N st = Mounted i) by (apply table_mounted; auto).
    by rewrite Ht.
Qed.

Lemma mounted_iff_exactly_one_vacancy_witness :
  fst (compute_from 3 (list_to_map [("e", 1); ("t0", 1); ("t1", 0); ("t2", 1)])) = 1.
Proof.
  apply mounted_iff_exactly_one_vacancy; [lia|].
  split; [lia|]. split; [reflexivity|]. intros j Hj.
  assert (Hc : j = 0 \/ j = 1 \/ j = 2) by lia.
  destruct Hc as [->|[->| ->]]; reflexivity.
Defined.

(** X4. Unmounted is reported exactly when there is at least one bay, the
    engagement pin reads 0 and every bay below [N] reads 1. *)
Theorem unmounted_iff_all_bays_full (N : Z) (st : gmap string Z) :
  fst (compute_from N st) = -1 <->
  1 <= N /\ state_get st "e" = 0 /\ forall j, 0 <= j < N -> bay_value st j = 1.
Proof.
  rewrite compute_from_table, <- table_unmounted. split; [|by intros ->].
  destruct (decision_table N st) as [| |i] eqn:Ht; simpl; try done.
  intros ->. apply table_mounted in Ht. lia.
Qed.

(** X5. A bay below [N] that has no entry in the store (a gap in the numbering
    of the configured bays) reads as empty: Unmounted is not reported, and the
    only tool that can be reported is that bay's. *)
Theorem missing_bay_blocks_unmounted (N : Z) (st : gmap string Z) (i : Z) :
  0 <= i < N -> st !! bay_label i = None ->
  fst (compute_from N st) = -2 \/ fst (compute_from N st) = i.
Proof.
  intros Hi Hnone.
  assert (Hz : bay_value st i = 0) by (unfold bay_value, state_get; by rewrite Hnone).
  rewrite compute_from_table.
  destruct (decision_table N st) as [| |k] eqn:Ht; simpl; [by left| |].
  - apply table_unmounted in Ht as (_ & _ & Hpat). rewrite Hpat in Hz by done. done.
  - apply table_mounted in Ht as (_ & _ & Hpat). specialize (Hpat i Hi).
    rewrite Hz in Hpat. destruct (decide (i = k)); [by right|done].
Qed.

Lemma missing_bay_blocks_unmounted_witness :
  fst (compute_from 3 (list_to_map [("e", 0); ("t0", 1); ("t2", 1)])) = -2 \/
  fst (compute_from 3 (list_to_map [("e", 0); ("t0", 1); ("t2", 1)])) = 1.
Proof.
  apply missing_bay_blocks_unmounted; [lia|reflexivity].
Defined.

(** X2. The diagnostics of a pass over at least one bay: [empties] lies between
    0 and [N], the flag is 0 or 1, and on a valid snapshot (flag 0) the
    engagement value is 0 or 1 and [S + empties = N], so that the test
    [S == N - 1] adds nothing to [empties == 1]. *)
Theorem diagnostics_add_up (N : Z) (st : gmap string Z) (ex S empties bad : Z) :
  snd (compute_from N st) = (N, Some ex, Some S, Some empties, bad) ->
  ex = state_get st "e" /\ 0 <= empties <= N /\ (bad = 0 \/ bad = 1) /\
  (bad = 0 -> (ex = 0 \/ ex = 1) /\ S + empties = N).
Proof.
  unfold compute_from. destruct (Z.ltb_spec N 1) as [Hlt|Hge]; [done|].
  rewrite scan_bays_closed. cbn [snd acc_bad acc_S acc_empties].
  intros [= <- <- <- <-].
  pose proof (length_filter (fun i => bay_value st i = 0) (seqZ 0 N)) as Hle.
  rewrite length_seqZ in Hle.
  split; [done|]. split; [lia|].
  destruct (in_0_1 (state_get st "e")) eqn:Hex;
    destruct (forallb in_0_1 (bay_value st <$> seqZ 0 N)) eqn:Hbits;
    (split; [auto|]); try done.
  intros _. unfold in_0_1 in Hex.
  apply orb_true_iff in Hex. rewrite !Z.eqb_eq in Hex. split; [done|].
  pose proof (bits_sum_count _ _ Hbits) as Hsum. rewrite length_seqZ in Hsum. lia.
Qed.

Lemma diagnostics_add_up_witness :
  (1 = 1 /\ 0 <= 1 <= 3 /\ (0 = 0 \/ 0 = 1) /\ (0 = 0 -> (1 = 0 \/ 1 = 1) /\ 2 + 1 = 3)).
Proof.
  exact (diagnostics_add_up 3
           (list_to_map [("e", 1); ("t0", 1); ("t1", 0); ("t2", 1)]) 1 2 1 0 eq_refl).
Defined.

(** ** Labels and command texts *)

Lemma append_cancel (s a b : string) : s +:+ a = s +:+ b -> a = b.
Proof. induction s as [|c s IH]; simpl; [done|]. intros [= H]. by apply IH. Qed.

Lemma bay_label_inj (i j : Z) : bay_label i = bay_label j -> i = j.
Proof. unfold bay_label. intros H%append_cancel. by apply (inj pretty) in H. Qed.

Lemma bay_label_not_e (i : Z) : bay_label i <> "e".
Proof. unfold bay_label. simpl. discriminate. Qed.

(** X6. A pin event touches one reading only: storing a level under bay [i]'s
    label changes what bay [i] reads and no other bay nor the engagement pin,
    and storing the engagement level changes no bay. *)
Theorem pin_event_touches_one_reading (st : gmap string Z) (i j v : Z) :
  bay_value (<[bay_label i := v]> st) j = (if decide (i = j) then v else bay_value st j) /\
  state_get (<[bay_label i := v]> st) "e" = state_get st "e" /\
  bay_value (<["e" := v]> st) j = bay_value st j /\
  state_get (<["e" := v]> st) "e" = v.
Proof.
  unfold bay_value, state_get. repeat split.
  - destruct (decide (i = j)) as [->|Hne].
    + by rewrite lookup_insert_eq.
    + rewrite lookup_insert_ne; [done|]. by intros ?%bay_label_inj.
  - rewrite lookup_insert_ne; [done|]. apply bay_label_not_e.
  - rewrite lookup_insert_ne; [done|]. intros H. by apply (bay_label_not_e j).
  - by rewrite lookup_insert_eq.
Qed.

(** X7. The command text identifies the target: two targets give the same
    command exactly when they are the same tool index or both are negative
    (Unmounted and Unknown share [UNSELECT_TOOL]). *)
Theorem command_identifies_target (a b : Z) :
  _do_toolchanger_sync a = _do_toolchanger_sync b <-> a = b \/ (a < 0 /\ b < 0).
Proof.
  unfold _do_toolchanger_sync.
  destruct (Z.leb_spec 0 a) as [Ha|Ha], (Z.leb_spec 0 b) as [Hb|Hb]; split.
  - intros [= Heq%append_cancel]. left. by apply (inj pretty) in Heq.
  - intros [->|[? ?]]; [done|lia].
  - discriminate.
  - intros [->|[? ?]]; lia.
  - discriminate.
  - intros [->|[? ?]]; lia.
  - intros _. right. lia.
  - done.
Qed.

(** ** Reading back a formatted index *)

Lemma digit_of_char (d : N) :
  (d < 10)%N -> digit_of (pretty_N_char d) = Some (Z.of_N d).
Proof.
  intros Hd.
  assert (Hc : (d = 0 \/ d = 1 \/ d = 2 \/ d = 3 \/ d = 4 \/ d = 5 \/ d = 6 \/ d = 7
                \/ d = 8 \/ d = 9)%N) by lia.
  repeat (destruct Hc as [->|Hc]; [reflexivity|]). by subst.
Qed.

Lemma read_digits_pretty_go (x : N) :
  exists k : Z, 0 <= k /\ forall s acc,
    read_digits acc (pretty_N_go x s) = read_digits (acc * 10 ^ k + Z.of_N x) s.
Proof.
  induction (N.lt_wf_0 x) as [x _ IH].
  destruct (decide (x = 0)%N) as [->|Hpos].
  - exists 0. split; [done|]. intros s acc. rewrite pretty_N_go_0. f_equal. lia.
  - destruct (IH (x `div` 10)%N) as (k & Hk & Hread).
    { apply N.div_lt; lia. }
    exists (k + 1). split; [lia|]. intros s acc.
    rewrite pretty_N_go_step by lia. rewrite Hread. simpl.
    rewrite digit_of_char by (apply N.mod_lt; lia). f_equal.
    rewrite Z.pow_add_r by lia.
    pose proof (N.div_mod x 10 ltac:(lia)) as Hdm.
    apply (f_equal Z.of_N) in Hdm. rewrite N2Z.inj_add, N2Z.inj_mul in Hdm.
    change (Z.of_N 10) with 10 in Hdm. lia.
Qed.

Lemma decimal_int_digits (s : string) (v : Z) :
  s <> "" -> read_digits 0 s = Some v -> decimal_int s = Some v.
Proof.
  destruct s as [|c s']; [done|]. intros _.
  destruct c as [[] [] [] [] [] [] [] []]; cbn; try discriminate; by intros ->.
Qed.

Lemma read_digits_nonempty (x : positive) :
  read_digits 0 (pretty_N_go (N.pos x) "") = Some (Z.pos x) /\
  pretty_N_go (N.pos x) "" <> "".
Proof.
  destruct (read_digits_pretty_go (N.pos x)) as (k & _ & Hread).
  assert (Hr : read_digits 0 (pretty_N_go (N.pos x) "") = Some (Z.pos x)).
  { rewrite Hread. simpl. f_equal. }
  split; [done|]. intros Hnil. rewrite Hnil in Hr. simpl in Hr. done.
Qed.

(** The sample reader inverts decimal formatting. *)
Lemma decimal_int_pretty (z : Z) : decimal_int (pretty z) = Some z.
Proof.
  destruct z as [|x|x].
  - reflexivity.
  - destruct (read_digits_nonempty x) as [Hr Hne].
    change (pretty (Z.pos x)) with (pretty_N_go (N.pos x) "").
    by apply decimal_int_digits.
  - destruct (read_digits_nonempty x) as [Hr Hne].
    change (pretty (Z.neg x)) with ("-" +:+ pretty_N_go (N.pos x) "").
    destruct (pretty_N_go (N.pos x) "") as [|c s'] eqn:Hs; [done|].
    change (decimal_int ("-" +:+ String c s'))
      with (Z.opp <$> read_digits 0 (String c s')).
    by rewrite Hr.
Qed.

(** X8. The label the compute loop reads for bay [i] is a label the
    constructor counts as bay [i]: [_parse_t_index] reads the index back out of
    ["t%d" % i], for any integer reader that inverts decimal formatting, as
    [int] does; a label that does not start with [t] is no bay at all. *)
Theorem parse_reads_back_formatted_index (py_int : string -> option Z) (i : Z) :
  (forall z, py_int (pretty z) = Some z) ->
  _parse_t_index py_int (bay_label i) = Some i /\
  _parse_t_index py_int "e" = None.
Proof.
  intros Hinv. split; [|done]. unfold _parse_t_index, bay_label.
  assert (Hp : String.prefix "t" ("t" +:+ pretty i) = true) by by destruct (pretty i).
  rewrite Hp. change (string_drop 1 ("t" +:+ pretty i)) with (pretty i). apply Hinv.
Qed.

Lemma parse_reads_back_formatted_index_witness :
  _parse_t_index decimal_int (bay_label 12) = Some 12 /\
  _parse_t_index decimal_int "e" = None.
Proof.
  apply parse_reads_back_formatted_index. exact decimal_int_pretty.
Defined.

(** ** What construction leaves behind *)

#[local] Arguments string_drop : simpl never.

Section ConstructionShape.

Variable py_int : string -> option Z.
Variable py_float : string -> option Q.
Variable pin_ok : string -> bool.

Lemma add_pins_shape (cfg : config) (opts : list string) (w w' : world) :
  add_pins py_int pin_ok cfg w opts = inr w' ->
  buttons w' = buttons w ++ ((fun opt => (pin_of cfg opt, string_drop 4 opt)) <$> opts) /\
  (forall l, state (self w') !! l =
     match state (self w) !! l with
     | Some v => Some v
     | None => if decide (l ∈ string_drop 4 <$> opts) then Some 0 else None
     end) /\
  (forall i, i ∈ t_indices (self w') <->
     i ∈ t_indices (self w) \/
     exists l, l ∈ string_drop 4 <$> opts /\ _parse_t_index py_int l = Some i) /\
  Forall (fun opt => pin_ok (pin_of cfg opt) = true) opts.
Proof.
  revert w. induction opts as [|opt opts IH]; intros w; simpl.
  - intros [= ->]. rewrite app_nil_r. split; [done|]. split.
    + intros l. by destruct (state (self w') !! l).
    + split; [|done]. intros i. split; [by left|]. intros [?|(l & Hl & _)]; [done|].
      by apply elem_of_nil in Hl.
  - unfold add_pin at 1. fold (pin_of cfg opt).
    destruct (pin_ok (pin_of cfg opt)) eqn:Hok; [|done].
    intros H. apply IH in H as (Hb & Hs & Ht & Hall). simpl in Hb, Hs, Ht.
    split; [by rewrite Hb, <- app_assoc|]. split; [|split].
    + intros l. rewrite Hs. clear.
      destruct (decide (l = string_drop 4 opt)) as [->|Hne].
      * destruct (decide (is_Some (state (self w) !! string_drop 4 opt))) as [[v Hv]|Hn].
        -- by rewrite Hv.
        -- rewrite lookup_insert_eq.
           destruct (state (self w) !! string_drop 4 opt) eqn:E; [by destruct Hn; eexists|].
           rewrite decide_True; [done|apply list_elem_of_here].
      * assert (Hl : (if decide (is_Some (state (self w) !! string_drop 4 opt))
                      then state (self w)
                      else <[string_drop 4 opt := 0]> (state (self w))) !! l
                     = state (self w) !! l).
        { destruct (decide _); [done|]. by rewrite lookup_insert_ne. }
        rewrite Hl. destruct (state (self w) !! l); [done|].
        destruct (decide (l ∈ string_drop 4 <$> opts)) as [Hin|Hnin].
        -- rewrite decide_True; [done|by apply list_elem_of_further].
        -- rewrite decide_False; [done|]. by intros [?|?]%elem_of_cons.
    + intros i. rewrite Ht. clear. split.
      * intros [Hi|(l & Hl & Hp)].
        -- destruct (_parse_t_index py_int (string_drop 4 opt)) as [ti|] eqn:Hp;
             [|by left].
           apply elem_of_union in Hi as [->%elem_of_singleton|Hi]; [|by left].
           right. exists (string_drop 4 opt). split; [apply list_elem_of_here|done].
        -- right. exists l. split; [by apply list_elem_of_further|done].
      * intros [Hi|(l & Hl & Hp)].
        -- left. destruct (_parse_t_index py_int (string_drop 4 opt)); [|done].
           apply elem_of_union. by right.
        -- apply elem_of_cons in Hl as [->|Hl]; [|right; eauto].
           left. rewrite Hp. apply elem_of_union. left. by apply elem_of_singleton.
    + by constructor.
Qed.

Lemma add_pins_accepts (cfg : config) (opts : list string) (w : world) :
  Forall (fun opt => pin_ok (pin_of cfg opt) = true) opts ->
  exists w', add_pins py_int pin_ok cfg w opts = inr w'.
Proof.
  revert w. induction opts as [|opt opts IH]; intros w Hall; simpl; [by eexists|].
  apply Forall_cons in Hall as [Hok Hall]. unfold add_pin at 1.
  fold (pin_of cfg opt). rewrite Hok. by apply IH.
Qed.

(** Everything the constructor establishes, in one place. *)
Lemma init_shape (cfg : config) (ev : env) (w : world) :
  __init__ py_int py_float pin_ok cfg ev = inr w ->
  buttons w = (fun opt => (pin_of cfg opt, string_drop 4 opt))
                <$> get_prefix_options "pin_" cfg /\
  (forall l, state (self w) !! l = if decide (l ∈ pin_labels cfg) then Some 0 else None) /\
  (forall i, i ∈ t_indices (self w) <->
     exists l, l ∈ pin_labels cfg /\ _parse_t_index py_int l = Some i) /\
  current_tool (self w) = -2 /\
  _pending_tc_ct (self w) = None /\
  _tc_timer (self w) = None /\
  _compute_timer (self w) = Some 0%nat /\
  reactor w = mkReactor [mkTimer 0%nat ComputeTimerCb (Some (monotonic ev + 0)%Q)] 1%nat /\
  config_flag py_int "sync_toolchanger" 1 cfg = Some (sync_toolchanger (self w)) /\
  config_float py_float "assign_delay" 0%Q cfg = Some (assign_delay (self w)).
Proof.
  unfold __init__, pin_labels.
  destruct (config_flag _ _ 1 cfg) as [sync|]; [|done].
  destruct (config_flag _ _ 0 cfg) as [verb|]; [|done].
  destruct (config_float _ _ _ cfg) as [delay|]; [|done].
  destruct (get_prefix_options _ cfg) as [|o opts] eqn:Ho; [done|].
  destruct (add_pins _ _ _ _ _) as [e|w0] eqn:Hadd; [done|].
  intros [= <-].
  pose proof (add_pins_pristine _ _ _ _ _ _ Hadd) as (Hr & Hct & Hcm & Htc & Hp & Hsy & Hde).
  apply add_pins_shape in Hadd as (Hb & Hs & Ht & _). simpl in *.
  unfold _schedule_compute. simpl. rewrite Hcm, Hr. simpl.
  split; [done|]. split.
  { intros l. rewrite Hs, lookup_empty. done. }
  split.
  { intros i. rewrite Ht. split; [intros [?%elem_of_empty|?]; done|by right]. }
  by rewrite Hct, Hp, Htc, Hsy, Hde.
Qed.

End ConstructionShape.

(** X9. After a successful construction one callback is registered per [pin_]
    option, in file order, under the option's name without the prefix; the
    store holds exactly these labels, all at level 0; and the bay indices are
    exactly those [_parse_t_index] reads from the labels. *)
Theorem construction_registers_every_pin (py_int : string -> option Z)
    (py_float : string -> option Q) (pin_ok : string -> bool)
    (cfg : config) (ev : env) (w : world) :
  __init__ py_int py_float pin_ok cfg ev = inr w ->
  buttons w = (fun opt => (pin_of cfg opt, string_drop 4 opt))
                <$> get_prefix_options "pin_" cfg /\
  (forall l, state (self w) !! l = if decide (l ∈ pin_labels cfg) then Some 0 else None) /\
  (forall i, i ∈ t_indices (self w) <->
     exists l, l ∈ pin_labels cfg /\ _parse_t_index py_int l = Some i).
Proof.
  intros Hinit. apply init_shape in Hinit as (? & ? & ? & _). done.
Qed.

Lemma construction_registers_every_pin_witness :
  buttons sample_world = [("PA1", "e"); ("PA2", "t0"); ("PA3", "t1")] /\
  state (self sample_world) !! "t1" = Some 0 /\
  state (self sample_world) !! "t2" = None /\
  (1 ∈ t_indices (self sample_world) <->
   exists l, l ∈ pin_labels sample_config /\ _parse_t_index decimal_int l = Some 1).
Proof.
  destruct (construction_registers_every_pin decimal_int sample_float any_pin
              sample_config (host 0 None (Some "initializing")) sample_world)
    as (Hb & Hs & Ht); [by vm_compute|].
  split; [exact Hb|]. split; [exact (Hs "t1")|]. split; [exact (Hs "t2")|]. exact (Ht 1).
Defined.

(** X10. Construction succeeds exactly when the three scalar options can be
    read, there is at least one [pin_] option and the buttons module accepts
    every pin; otherwise it raises. *)
Theorem construction_succeeds_iff (py_int : string -> option Z)
    (py_float : string -> option Q) (pin_ok : string -> bool) (cfg : config) (ev : env) :
  (exists w, __init__ py_int py_float pin_ok cfg ev = inr w) <->
  is_Some (config_flag py_int "sync_toolchanger" 1 cfg) /\
  is_Some (config_flag py_int "verbose" 0 cfg) /\
  is_Some (config_float py_float "assign_delay" 0%Q cfg) /\
  get_prefix_options "pin_" cfg <> [] /\
  Forall (fun opt => pin_ok (pin_of cfg opt) = true) (get_prefix_options "pin_" cfg).
Proof.
  unfold __init__.
  destruct (config_flag _ _ 1 cfg) as [sync|]; [|split; [by intros [? ?]|by intros [[? ?] _]]].
  destruct (config_flag _ _ 0 cfg) as [verb|];
    [|split; [by intros [? ?]|by intros (_ & [? ?] & _)]].
  destruct (config_float _ _ _ cfg) as [delay|];
    [|split; [by intros [? ?]|by intros (_ & _ & [? ?] & _)]].
  destruct (get_prefix_options _ cfg) as [|o opts]; [split; [by intros [? ?]|tauto]|].
  split.
  - intros [w Hw]. destruct (add_pins _ _ _ _ _) as [e|w0] eqn:Hadd; [done|].
    apply add_pins_shape in Hadd as (_ & _ & _ & Hall). eauto 10.
  - intros (_ & _ & _ & _ & Hall).
    match goal with |- context [add_pins _ _ _ ?w0 _] =>
      destruct (add_pins_accepts py_int pin_ok cfg (o :: opts) w0 Hall) as [w1 Hw1] end.
    rewrite Hw1. by eexists.
Qed.

(** ** What a step leaves alone *)

Lemma step_settings (ev : env) (e : event) (w w' : world) (out : list string) :
  step ev e w = Some (w', out) ->
  buttons w' = buttons w /\
  sync_toolchanger (self w') = sync_toolchanger (self w) /\
  assign_delay (self w') = assign_delay (self w) /\
  state (self w') =
    match e with
    | PinEdge label v => <[label := v]> (state (self w))
    | _ => state (self w)
    end.
Proof.
  destruct e as [label v|h|]; simpl.
  - case_bool_decide; [|done]. intros [= <- _]. unfold _cb.
    destruct (decide _) as [Hdup|Hnew].
    + by rewrite (insert_id _ _ _ Hdup).
    + cbv zeta. unfold _schedule_compute. simpl.
      by destruct (_compute_timer (self w)).
  - destruct (fire_timer h (monotonic ev) (reactor w)) as [[[|] r']|]; [| |done].
    + rewrite compute_timer_cb_unfold. cbv zeta.
      unfold _request_toolchanger_sync, _sync_toolchanger_or_defer.
      repeat case_match; by intros [= <- _].
    + unfold _tc_timer_cb. simpl.
      destruct (_pending_tc_ct (self w)); [destruct (_toolchanger_busy ev)|];
        by intros [= <- _].
  - by intros [= <- _].
Qed.

Lemma step_edge_registered (ev : env) (label : string) (v : Z) (w w' : world)
    (out : list string) :
  step ev (PinEdge label v) w = Some (w', out) -> label ∈ snd <$> buttons w.
Proof. simpl. by case_bool_decide. Qed.

(** X11. The configuration is fixed for the life of the object: in every
    reachable world the registry is the one built at construction, the store
    has exactly the configured labels as keys (no event adds or removes one),
    and the settings read at construction are unchanged. *)
Theorem store_keys_stay_configured (py_int : string -> option Z)
    (py_float : string -> option Q) (pin_ok : string -> bool) (cfg : config) (w : world) :
  reachable py_int py_float pin_ok cfg w ->
  snd <$> buttons w = pin_labels cfg /\
  (forall l, is_Some (state (self w) !! l) <-> l ∈ pin_labels cfg) /\
  config_flag py_int "sync_toolchanger" 1 cfg = Some (sync_toolchanger (self w)) /\
  config_float py_float "assign_delay" 0%Q cfg = Some (assign_delay (self w)).
Proof.
  induction 1 as [ev w Hinit | ev e w w' out _ IH Hstep].
  - apply init_shape in Hinit
      as (Hb & Hs & _ & _ & _ & _ & _ & _ & Hsy & Hde).
    split; [|split; [|done]].
    + rewrite Hb. unfold pin_labels. rewrite <- list_fmap_compose.
      by apply list_fmap_ext.
    + intros l. rewrite Hs. destruct (decide _); split; done.
  - destruct IH as (Hb & Hs & Hsy & Hde).
    pose proof (step_settings _ _ _ _ _ Hstep) as (Hb' & Hsy' & Hde' & Hst).
    rewrite Hb', Hsy', Hde'. split; [done|]. split; [|done].
    intros l. rewrite Hst, <- Hs. destruct e as [label v| |]; try done.
    destruct (decide (label = l)) as [->|Hne]; [|by rewrite lookup_insert_ne].
    rewrite lookup_insert_eq. split; [intros _|by eexists].
    apply Hs. rewrite <- Hb. by eapply step_edge_registered.
Qed.

Lemma store_keys_stay_configured_witness :
  snd <$> buttons sample_world = pin_labels sample_config /\
  (is_Some (state (self sample_world) !! "t0") <-> "t0" ∈ pin_labels sample_config).
Proof.
  destruct (store_keys_stay_configured decimal_int sample_float any_pin sample_config
              sample_world sample_world_reachable) as (Hb & Hs & _).
  split; [exact Hb | exact (Hs "t0")].
Defined.

(** ** The start-up pass *)

Lemma all_zero_unknown (N : Z) (st : gmap string Z) :
  (forall l, state_get st l = 0) -> fst (compute_from N st) = -2.
Proof.
  intros Hz. rewrite compute_from_table.
  destruct (decision_table N st) as [| |i] eqn:Ht; simpl; [done| |].
  - apply table_unmounted in Ht as (HN & _ & Hpat).
    specialize (Hpat 0 ltac:(lia)). unfold bay_value in Hpat. rewrite Hz in Hpat. done.
  - apply table_mounted in Ht as (_ & He & _). rewrite Hz in He. done.
Qed.

(** X12. The first inference pass runs on the all-zero store the constructor
    leaves, so it caches Unknown (-2) whatever the machine holds; with sync
    enabled, the printer not printing and the tool-changer free it sends
    [UNSELECT_TOOL], and otherwise it sends nothing. *)
Theorem startup_pass_reports_unknown (py_int : string -> option Z)
    (py_float : string -> option Q) (pin_ok : string -> bool)
    (cfg : config) (ev ev' : env) (w : world) :
  __init__ py_int py_float pin_ok cfg ev = inr w ->
  (monotonic ev <= monotonic ev')%Q ->
  exists w',
    step ev' (TimerFire 0%nat) w =
      Some (w', if sync_toolchanger (self w) && negb (_is_printing ev')
                   && negb (_toolchanger_busy ev')
                then ["UNSELECT_TOOL"] else []) /\
    current_tool (self w') = -2.
Proof.
  intros Hinit Hle.
  pose proof (init_consistent _ _ _ _ _ _ Hinit) as Hw.
  apply init_shape in Hinit as (_ & Hs & _ & _ & _ & _ & _ & Hr & _).
  assert (Hdue : (monotonic ev + 0 <= monotonic ev')%Q).
  { eapply Qle_trans; [|exact Hle]. rewrite Qplus_0_r. apply Qle_refl. }
  assert (Hfire : fire_timer 0%nat (monotonic ev') (reactor w)
                  = Some (ComputeTimerCb,
                          mkReactor (expire 0%nat <$> timers (reactor w))
                                    (next_handle (reactor w)))).
  { eapply fire_timer_due; [apply (handles_distinct _ Hw)| |exact Hdue].
    rewrite Hr. apply list_elem_of_here. }
  assert (Hct : fst (_compute_current_tool (self w)) = -2).
  { apply all_zero_unknown. intros l. unfold state_get. rewrite Hs.
    by destruct (decide _). }
  pose proof (compute_pass_spec _ _ _ _ Hw Hfire) as Hp. cbv zeta in Hp.
  destruct Hp as (Hcur & _). rewrite Hct in Hcur.
  simpl. rewrite Hfire.
  destruct (_compute_timer_cb ev' _) as [w' out] eqn:Hcb. simpl in Hcur.
  exists w'. split; [|done]. f_equal. f_equal.
  rewrite compute_timer_cb_unfold in Hcb. cbv zeta in Hcb.
  change (self (with_reactor _ w)) with (self w) in Hcb. rewrite Hct in Hcb.
  destruct (sync_toolchanger (self w)); simpl; [|by injection Hcb].
  unfold _request_toolchanger_sync in Hcb.
  destruct (_is_printing ev'); simpl; [by injection Hcb|].
  destruct (_toolchanger_busy ev') eqn:Hb; simpl.
  - match type of Hcb with _sync_toolchanger_or_defer ?c ?e ?x = _ =>
      pose proof (defer_busy c e x Hb) as Hd end.
    cbv zeta in Hd. destruct Hd as [Hout _]. by rewrite Hcb in Hout.
  - rewrite defer_not_busy in Hcb by done. by injection Hcb.
Qed.

Lemma startup_pass_reports_unknown_witness :
  exists w',
    step (host (1 # 100) None (Some "ready")) (TimerFire 0%nat) sample_world
      = Some (w', ["UNSELECT_TOOL"]) /\
    current_tool (self w') = -2.
Proof.
  apply (startup_pass_reports_unknown decimal_int sample_float any_pin sample_config
           (host 0 None (Some "initializing")) (host (1 # 100) None (Some "ready"))).
  - by vm_compute.
  - vm_compute. discriminate.
Defined.

(** ** With synchronisation switched off *)

Lemma silent_step (ev : env) (e : event) (w w' : world) (out : list string) :
  sync_toolchanger (self w) = false ->
  _pending_tc_ct (self w) = None -> _tc_timer (self w) = None ->
  step ev e w = Some (w', out) ->
  out = [] /\ _pending_tc_ct (self w') = None /\ _tc_timer (self w') = None.
Proof.
  intros Hoff Hp Ht. destruct e as [label v|h|]; simpl.
  - case_bool_decide; [|done]. intros [= <- <-].
    destruct (cb_frame label (monotonic ev) v ev w) as (_ & _ & -> & -> & _). done.
  - destruct (fire_timer h (monotonic ev) (reactor w)) as [[[|] r']|]; [| |done].
    + rewrite compute_timer_cb_unfold. cbv zeta.
      change (self (with_reactor r' w)) with (self w). rewrite Hoff.
      by intros [= <- <-].
    + unfold _tc_timer_cb. simpl. rewrite Hp. by intros [= <- <-].
  - by intros [= <- <-].
Qed.

(** X13. With [sync_toolchanger] configured to 0 the component only watches:
    in every reachable world no target is pending and no retry timer is armed,
    and no step ever runs a command. *)
Theorem sync_disabled_is_silent (py_int : string -> option Z)
    (py_float : string -> option Q) (pin_ok : string -> bool) (cfg : config) (w : world) :
  reachable py_int py_float pin_ok cfg w ->
  sync_toolchanger (self w) = false ->
  _pending_tc_ct (self w) = None /\ _tc_timer (self w) = None /\
  forall ev e w' out, step ev e w = Some (w', out) -> out = [].
Proof.
  intros Hreach Hoff.
  assert (Hinv : _pending_tc_ct (self w) = None /\ _tc_timer (self w) = None).
  { induction Hreach as [ev w Hinit | ev e w w' out _ IH Hstep].
    - by apply init_shape in Hinit as (_ & _ & _ & _ & ? & ? & _).
    - pose proof (step_settings _ _ _ _ _ Hstep) as (_ & Hsy & _).
      rewrite Hsy in Hoff. destruct (IH Hoff) as [Hp Ht].
      by destruct (silent_step _ _ _ _ _ Hoff Hp Ht Hstep) as (_ & ? & ?). }
  destruct Hinv as [Hp Ht]. split; [done|]. split; [done|].
  intros ev e w' out Hstep.
  by destruct (silent_step _ _ _ _ _ Hoff Hp Ht Hstep) as (? & _).
Qed.

(** ** While printing *)

(** X14. While a print is running, neither a pin event nor an inference pass
    sends [UNSELECT_TOOL]; only a retry-timer fire can. *)
Theorem print_blocks_unselect_on_inference (ev : env) (e : event) (w w' : world)
    (out : list string) :
  _is_printing ev = true ->
  fired ev e w <> Some TcTimerCb ->
  step ev e w = Some (w', out) ->
  "UNSELECT_TOOL" ∉ out.
Proof.
  intros Hp Hnot. destruct e as [label v|h|]; simpl in Hnot |- *.
  - case_bool_decide; [|done]. intros [= _ <-]. apply not_elem_of_nil.
  - destruct (fire_timer h (monotonic ev) (reactor w)) as [[[|] r']|]; [|done|done].
    rewrite compute_timer_cb_unfold. cbv zeta.
    destruct (sync_toolchanger _); [|intros [= _ <-]; apply not_elem_of_nil].
    match goal with |- Some (_request_toolchanger_sync ?c ?e ?x) = _ -> _ =>
      pose proof (decision_never_unselects_while_printing c e x Hp) as Hno;
      destruct (_request_toolchanger_sync c e x) as [w1 o1] end.
    by intros [= _ <-].
  - intros [= _ <-]. apply not_elem_of_nil.
Qed.

Lemma print_blocks_unselect_on_inference_witness :
  match step (host 0 (Some "printing") (Some "ready")) (TimerFire 0%nat) plain_world with
  | Some (_, out) => "UNSELECT_TOOL" ∉ out
  | None => False
  end.
Proof.
  destruct (step (host 0 (Some "printing") (Some "ready")) (TimerFire 0%nat) plain_world)
    as [[w' out]|] eqn:Hstep.
  - apply (print_blocks_unselect_on_inference
             (host 0 (Some "printing") (Some "ready")) (TimerFire 0%nat) plain_world w' out).
    + reflexivity.
    + vm_compute. discriminate.
    + exact Hstep.
  - vm_compute in Hstep. discriminate.
Defined.

Lemma watch_only_world_reachable :
  reachable decimal_int sample_float any_pin watch_only_config watch_only_world.
Proof. apply (reach_init _ _ _ _ (host 0 None None)). by vm_compute. Qed.

Lemma sync_disabled_is_silent_witness :
  _pending_tc_ct (self watch_only_world) = None /\
  _tc_timer (self watch_only_world) = None /\
  forall ev e w' out, step ev e watch_only_world = Some (w', out) -> out = [].
Proof.
  apply (sync_disabled_is_silent decimal_int sample_float any_pin watch_only_config).
  - exact watch_only_world_reachable.
  - reflexivity.
Defined.

(** ** A pending target and its retry timer *)




(** ** Runs during which the tool-changer is never busy *)

Lemma idle_step (ev : env) (e : event) (w w' : world) (out : list string) :
  consistent w -> _pending_tc_ct (self w) = None ->
  _toolchanger_busy ev = false ->
  step ev e w = Some (w', out) ->
  out = match decision ev e w with
        | Some ct => _do_toolchanger_sync ct
        | None => []
        end /\
  _pending_tc_ct (self w') = None.
Proof.
  intros Hw Hp Hfree. unfold decision. destruct e as [label v|h|]; simpl.
  - case_bool_decide; [|done]. intros [= <- <-].
    by destruct (cb_frame label (monotonic ev) v ev w) as (_ & _ & -> & _).
  - destruct (fire_timer h (monotonic ev) (reactor w)) as [[[|] r']|] eqn:Hfire;
      [| |done]; simpl.
    + rewrite compute_timer_cb_unfold. cbv zeta.
      change (self (with_reactor r' w)) with (self w).
      destruct (sync_toolchanger (self w)); simpl; [|by intros [= <- <-]].
      unfold _request_toolchanger_sync.
      destruct (_is_printing ev); simpl;
        [destruct (0 <=? fst (_compute_current_tool (self w)))|];
        rewrite ?defer_not_busy by done; by intros [= <- <-].
    + intros _. exfalso.
      destruct (tc_fire_inv _ _ _ _ Hw Hfire) as (_ & [ct Hct] & _). congruence.
  - by intros [= <- <-].
Qed.

(** X16. As long as the tool-changer is never busy and nothing was pending,
    every dispatch decision sends its command at once: the lines sent along a
    run are the commands of its decisions, in order and one each (also when the
    inferred tool did not change), and nothing is ever left pending. *)
Theorem idle_run_sends_every_decision (py_int : string -> option Z)
    (py_float : string -> option Q) (pin_ok : string -> bool) (cfg : config)
    (w w' : world) (tr : trace) (out : list string) :
  reachable py_int py_float pin_ok cfg w ->
  _pending_tc_ct (self w) = None ->
  never_busy tr ->
  run tr w = Some (w', out) ->
  out = concat (_do_toolchanger_sync <$> decisions tr w) /\
  length out = length (decisions tr w) /\
  _pending_tc_ct (self w') = None.
Proof.
  intros Hw%reachable_consistent. revert w out Hw.
  induction tr as [|[ev e] tr IH]; intros w out Hw Hp Hfree Hrun.
  - simpl in *. by injection Hrun as <- <-.
  - apply Forall_cons in Hfree as [Hb Hfree]. simpl in Hb, Hrun |- *.
    destruct (step ev e w) as [[w1 out1]|] eqn:Hstep; [|done].
    destruct (run tr w1) as [[w2 out2]|] eqn:Hrun'; [|done].
    injection Hrun as <- <-.
    destruct (idle_step _ _ _ _ _ Hw Hp Hb Hstep) as (-> & Hp1).
    pose proof (step_consistent _ _ _ _ _ Hw Hstep) as Hw1.
    destruct (IH _ _ Hw1 Hp1 Hfree Hrun') as (-> & Hlen & Hp2).
    split; [|split; [|done]].
    + rewrite fmap_app, concat_app. f_equal.
      destruct (decision ev e w); simpl; [by rewrite app_nil_r|done].
    + rewrite !length_app, Hlen. f_equal.
      destruct (decision ev e w) as [ct|]; [|done].
      by destruct (do_sync_one_command ct) as (line & -> & _).
Qed.

Lemma idle_run_sends_every_decision_witness :
  match run pickup_and_return plain_world with
  | Some (_, out) =>
      out = ["UNSELECT_TOOL"; "INITIALIZE_TOOLCHANGER T=1"; "UNSELECT_TOOL"]
  | None => False
  end.
Proof.
  destruct (run pickup_and_return plain_world) as [[w' out]|] eqn:Hrun.
  - destruct (idle_run_sends_every_decision decimal_int sample_float any_pin plain_config
                plain_world w' pickup_and_return out) as (Hout & _ & _).
    + exact plain_world_reachable.
    + reflexivity.
    + repeat constructor.
    + exact Hrun.
    + rewrite Hout. reflexivity.
  - vm_compute in Hrun. discriminate.
Defined.

(** ** Retries are spaced *)




(** ** Labels of the configured pins *)

Lemma prefix_pin (opt : string) :
  String.prefix "pin_" opt = true -> "pin_" +:+ string_drop 4 opt = opt.
Proof.
  intros Hp%String.prefix_correct.
  destruct opt as [|a [|b [|c [|d rest]]]]; simpl in Hp; try discriminate.
  injection Hp as -> -> -> -> _. reflexivity.
Qed.

(** X18. Stripping the prefix loses nothing: every pin option is [pin_]
    followed by its label, so two different options never share a label, and a
    section with distinct option names yields distinct labels. *)
Theorem pin_labels_are_distinct (cfg : config) :
  (forall opt, opt ∈ get_prefix_options "pin_" cfg ->
     "pin_" +:+ string_drop 4 opt = opt /\ opt ∈ fst <$> options cfg) /\
  (NoDup (fst <$> options cfg) -> NoDup (pin_labels cfg)).
Proof.
  assert (Hopt : forall opt, opt ∈ get_prefix_options "pin_" cfg ->
            "pin_" +:+ string_drop 4 opt = opt /\ opt ∈ fst <$> options cfg).
  { intros opt Hin. unfold get_prefix_options in Hin.
    pose proof (proj1 (list_elem_of_filter _ _ _) Hin) as [Hp Ho].
    split; [by apply prefix_pin|done]. }
  split; [done|]. intros Hnd. unfold pin_labels.
  apply NoDup_fmap_2_strong.
  - intros x y Hx Hy Heq.
    destruct (Hopt x Hx) as [<- _]. destruct (Hopt y Hy) as [<- _]. by rewrite Heq.
  - eapply sublist_NoDup; [exact Hnd|]. apply sublist_filter.
Qed.

Lemma pin_labels_are_distinct_witness :
  NoDup (pin_labels sample_config).
Proof.
  apply pin_labels_are_distinct. apply (bool_decide_unpack _). by vm_compute.
Defined.
